(** * BrainPy: the dynamical-system composition layer

    A shallow embedding of [brainpy/dyn/base.py] (delay registration,
    containers, networks, conductance-based neuron groups, sequential
    pipelines) and of [brainpy/_src/dyn/context.py] (the shared context),
    with the properties of the specification stated over it.

    Python objects that are mutated in place and shared by reference
    (variables, delay buffers, the class-level [global_delay_data]) live in
    explicit heaps; methods are computations in a state-and-exception monad
    in which the state survives a raised exception, as it does in Python. *)

From Stdlib Require Import ZArith.
From stdpp Require Import base option list strings pretty functions gmap.

(** ** Python exceptions and the state-and-exception monad *)

Inductive exn : Type :=
| AssertionError
| IndexError
| KeyError (key : string)
| ValueError (msg : string)
| TypeError (msg : string)
| AttributeError (msg : string)
| NotImplementedError (msg : string).

Definition is_ValueError (e : exn) : Prop := exists msg, e = ValueError msg.

Definition Py (S A : Type) : Type := S -> (exn + A) * S.

Definition ret {S A} (a : A) : Py S A := fun s => (inr a, s).

Definition raise {S A} (e : exn) : Py S A := fun s => (inl e, s).

Definition bind {S A B} (m : Py S A) (k : A -> Py S B) : Py S B :=
  fun s => match m s with
           | (inl e, s') => (inl e, s')
           | (inr a, s') => k a s'
           end.

Definition gets {S A} (f : S -> A) : Py S A := fun s => (inr (f s), s).

Definition modify {S} (f : S -> S) : Py S unit := fun s => (inr tt, f s).

Declare Scope py_scope.
Delimit Scope py_scope with py.
Notation "x <~ m ;; k" := (bind m (fun x => k))
  (at level 100, m at next level, right associativity) : py_scope.
Notation "m ;;; k" := (bind m (fun _ => k))
  (at level 100, right associativity) : py_scope.

(** [for x in xs: body(x)] *)
Fixpoint for_each {S A} (xs : list A) (body : A -> Py S unit) : Py S unit :=
  match xs with
  | [] => ret tt
  | x :: rest => bind (body x) (fun _ => for_each rest body)
  end.

(** [range(start, stop, step)] for a positive step; [fuel] bounds the
    number of elements, [stop] itself is enough. *)
Fixpoint range_fuel (fuel start stop step : nat) : list nat :=
  match fuel with
  | 0 => []
  | S fuel' =>
      if decide (start < stop)
      then start :: range_fuel fuel' (start + step) stop step
      else []
  end.

Definition range (start stop step : nat) : list nat :=
  range_fuel stop start stop step.

(** ** The shared context ([brainpy/_src/dyn/context.py]) *)

Module Context.

(** The objects that [save] receives: identifiers and scalars come in one
    positional tuple, so they share a type. *)
Inductive pyobj : Type :=
| PyNone
| PyInt (z : Z)
| PyStr (s : string).

#[global] Instance pyobj_eq_dec : EqDecision pyobj.
Proof. solve_decision. Defined.

Definition pyobj_enc (o : pyobj) : unit + (Z + string) :=
  match o with
  | PyNone => inl tt
  | PyInt z => inr (inl z)
  | PyStr s => inr (inr s)
  end.

Definition pyobj_dec (c : unit + (Z + string)) : pyobj :=
  match c with
  | inl _ => PyNone
  | inr (inl z) => PyInt z
  | inr (inr s) => PyStr s
  end.

#[global] Instance pyobj_countable : Countable pyobj.
Proof.
  apply (inj_countable' pyobj_enc pyobj_dec).
  intros []; reflexivity.
Defined.

(** [self._arguments] is a [DotDict], a dictionary: [gmap pyobj pyobj]. *)

(** One turn of the positional loop of [save]:
    [identifier = args[i * 2]; data = args[i * 2 + 1];
     self._arguments[identifier] = data]. *)
Definition save_pair (args : list pyobj) (i : nat) : Py (gmap pyobj pyobj) unit :=
  match args !! (i * 2) with
  | None => raise IndexError
  | Some identifier =>
      match args !! (i * 2 + 1) with
      | None => raise IndexError
      | Some data => modify (fun d => <[identifier := data]> d)
      end
  end.

(** [for identifier, data in kwargs.items(): self._arguments[identifier] = data] *)
Definition save_kwargs (kwargs : list (string * pyobj)) : Py (gmap pyobj pyobj) unit :=
  for_each kwargs (fun kv => modify (fun d => <[PyStr kv.1 := kv.2]> d)).

(** [_ShareContext.save], called with positional [args] and keyword [kwargs]. *)
Definition save (args : list pyobj) (kwargs : list (string * pyobj))
  : Py (gmap pyobj pyobj) unit :=
  if decide (length args mod 2 = 0) then
    (for_each (range 0 (length args) 2) (save_pair args) ;;;
     save_kwargs kwargs)%py
  else raise AssertionError.

End Context.

(** ** Collector: the insertion-ordered dictionary of named objects *)

Module Collector.

Section Collector.
Context {V : Type}.

Definition keys (c : list (string * V)) : list string := c.*1.

Definition values (c : list (string * V)) : list V := c.*2.

Fixpoint get (c : list (string * V)) (key : string) : option V :=
  match c with
  | [] => None
  | (k, v) :: rest => if decide (k = key) then Some v else get rest key
  end.

Definition contains (c : list (string * V)) (key : string) : bool :=
  bool_decide (key ∈ keys c).

(** Modelled from the spec: [Collector.__setitem__] ([brainpy.base.collector]),
    the assignment [c[key] = value] into a child map. The spec has a name be
    unique within a child map and duplicate names be rejected; a free name
    is appended, as a Python dictionary keeps insertion order. *)
Definition set (c : list (string * V)) (key : string) (value : V)
  : exn + list (string * V) :=
  if contains c key
  then inl (ValueError ("Name " +:+ key +:+ " conflicts."))
  else inr (c ++ [(key, value)]).

End Collector.

End Collector.

(** ** Delay registration ([DynamicalSystem.register_delay] and
       [DynamicalSystem.get_delay_data]) *)

Module Delay.

Section Delay.
Context {elt : Type}.
Variable zero : elt.

(** A tensor is a one-dimensional array of scalars; [shape[0]] is its
    length. *)
Definition zeros_like (t : list elt) : list elt := replicate (length t) zero.

(** Modelled from the spec: [bm.LengthDelay] ([brainpy.math], not in src), a
    fixed-size history of a target tensor over the last
    [max_delay_step + 1] ticks. [data] lists the history by lag: position
    [k] holds the value the target had [k] ticks ago, position 0 the value
    of the last refresh; values older than the first refresh are the initial
    fill value. *)
Record LengthDelay : Type := {
  num_delay_step : nat;
  data : list (list elt);
}.

(** Modelled from the spec: [bm.LengthDelay(delay_target, delay_len,
    initial_delay_data)]; without initial data the history is filled with
    zeros. *)
Definition LengthDelay_init (target_value : list elt) (delay_len : nat)
    (initial_delay_data : option (list elt)) : LengthDelay :=
  {| num_delay_step := delay_len + 1;
     data := target_value ::
             replicate delay_len
               (default (zeros_like target_value) initial_delay_data) |}.

(** Modelled from the spec: [LengthDelay.reset(delay_target, delay_len,
    initial_delay_data)]: the buffer is resized and reinitialised in
    place. *)
Definition LengthDelay_reset (target_value : list elt) (delay_len : nat)
    (initial_delay_data : option (list elt)) (_ : LengthDelay) : LengthDelay :=
  LengthDelay_init target_value delay_len initial_delay_data.

(** Modelled from the spec: [LengthDelay.update(value)], one tick: the new
    value enters at lag 0 and the oldest one leaves. *)
Definition LengthDelay_update (value : list elt) (d : LengthDelay) : LengthDelay :=
  {| num_delay_step := num_delay_step d;
     data := take (num_delay_step d) (value :: data d) |}.

(** The buffer after the refreshes of several ticks, the values in the
    order of the ticks. *)
Definition refreshed (values : list (list elt)) (d : LengthDelay) : LengthDelay :=
  foldl (fun d v => LengthDelay_update v d) d values.

(** The reading of a growth that keeps the recorded history: every lag the
    buffer had before still holds the value it held. *)
Definition history_preserved (before after : LengthDelay) : Prop :=
  forall k, k < num_delay_step before -> data after !! k = data before !! k.

(** A buffer over a target of [n] elements: as many slices as its capacity,
    each of [n] elements. *)
Definition well_shaped (n : nat) (d : LengthDelay) : Prop :=
  length (data d) = num_delay_step d /\
  Forall (fun slice => length slice = n) (data d).

(** The normalised delay steps that [register_delay] returns and
    [get_delay_data] receives: a scalar ([ndim == 0]) or a per-element
    array. *)
Inductive delay_steps : Type :=
| Homo (n : nat)
| Heter (a : list nat).

(** [data[k, i]] for each [(k, i)] of two index arrays of one length. *)
Fixpoint gather2 (d : list (list elt)) (lags idx : list nat)
  : exn + list elt :=
  match lags, idx with
  | [], [] => inr []
  | k :: lags', i :: idx' =>
      match d !! k ≫= (.!! i) with
      | None => inl IndexError
      | Some x =>
          match gather2 d lags' idx' with
          | inl e => inl e
          | inr xs => inr (x :: xs)
          end
      end
  | _, _ => inl (ValueError "shape mismatch of the index arrays")
  end.

(** Modelled from the spec: [LengthDelay.__call__(delay_len, *indices)], the
    historical value at a lag. A scalar lag selects one slice of the
    history, of which an index array selects elements; a per-element lag
    array with an index array selects, position by position, the element
    [indices[j]] at lag [delay_len[j]]. Other index tuples do not address a
    one-dimensional target. *)
Definition LengthDelay_call (d : LengthDelay) (delay_len : delay_steps)
    (indices : list (list nat)) : exn + list elt :=
  match delay_len, indices with
  | Homo n, [] =>
      match data d !! n with
      | Some slice => inr slice
      | None => inl IndexError
      end
  | Homo n, [idx] => gather2 (data d) (replicate (length idx) n) idx
  | Heter a, [idx] => gather2 (data d) a idx
  | _, _ => inl IndexError
  end.

(** The [delay_target] argument: a [bm.Variable] object, named by its
    identity, or an array that is not a [Variable]. *)
Inductive target : Type :=
| Variable_ (ref : nat)
| Array_ (value : list elt).

(** The [delay_step] argument of [register_delay]. *)
Inductive step_arg : Type :=
| ArgNone
| ArgInt (n : nat)
| ArgArray0 (n : nat)
| ArgArray (integral : bool) (a : list nat)
| ArgCallable (f : nat -> bool * list nat)
| ArgOther.

(** The objects the methods share by reference: the value of every
    [bm.Variable], every [LengthDelay] object, the class-level
    [global_delay_data], and every node's [local_delay_vars] (a
    [Collector]), nodes being named by their process-unique name. *)
Record Runtime : Type := {
  variables : nat -> list elt;
  delays : nat -> LengthDelay;
  allocated : nat;
  global_delay_data : gmap string (option nat * target);
  local_delay_vars : string -> list (string * nat);
}.

Definition set_variable (ref : nat) (value : list elt) (rt : Runtime) : Runtime :=
  {| variables := <[ref := value]> (variables rt);
     delays := delays rt;
     allocated := allocated rt;
     global_delay_data := global_delay_data rt;
     local_delay_vars := local_delay_vars rt |}.

Definition set_delay (ref : nat) (d : LengthDelay) (rt : Runtime) : Runtime :=
  {| variables := variables rt;
     delays := <[ref := d]> (delays rt);
     allocated := allocated rt;
     global_delay_data := global_delay_data rt;
     local_delay_vars := local_delay_vars rt |}.

Definition set_global (identifier : string) (entry : option nat * target)
    (rt : Runtime) : Runtime :=
  {| variables := variables rt;
     delays := delays rt;
     allocated := allocated rt;
     global_delay_data := <[identifier := entry]> (global_delay_data rt);
     local_delay_vars := local_delay_vars rt |}.

Definition set_local (self : string) (c : list (string * nat)) (rt : Runtime)
  : Runtime :=
  {| variables := variables rt;
     delays := delays rt;
     allocated := allocated rt;
     global_delay_data := global_delay_data rt;
     local_delay_vars := <[self := c]> (local_delay_vars rt) |}.

(** [target.value] *)
Definition value_of (rt : Runtime) (t : target) : list elt :=
  match t with
  | Variable_ ref => variables rt ref
  | Array_ value => value
  end.

(** A new [LengthDelay] object. *)
Definition alloc_delay (d : LengthDelay) : Py Runtime nat :=
  fun rt =>
    (inr (allocated rt),
     {| variables := variables rt;
        delays := <[allocated rt := d]> (delays rt);
        allocated := S (allocated rt);
        global_delay_data := global_delay_data rt;
        local_delay_vars := local_delay_vars rt |}).

(** [self.local_delay_vars[identifier] = delay] *)
Definition local_setitem (self identifier : string) (ref : nat) : Py Runtime unit :=
  fun rt =>
    match Collector.set (local_delay_vars rt self) identifier ref with
    | inl e => (inl e, rt)
    | inr c => (inr tt, set_local self c rt)
    end.

(** [delay = bm.LengthDelay(delay_target, max_delay_step, initial_delay_data);
     self.global_delay_data[identifier] = (delay, delay_target);
     self.local_delay_vars[identifier] = delay] *)
Definition create_delay (self identifier : string) (delay_target : target)
    (max_delay_step : nat) (initial_delay_data : option (list elt))
  : Py Runtime unit :=
  (v <~ gets (fun rt => value_of rt delay_target) ;;
   ref <~ alloc_delay (LengthDelay_init v max_delay_step initial_delay_data) ;;
   modify (set_global identifier (Some ref, delay_target)) ;;;
   local_setitem self identifier ref)%py.

(** The first part of [register_delay]: the kind of the delay steps, with
    the checks of a per-element array. [None] is the kind ['none']. *)
Definition delay_type (delay_step : step_arg) (target_value : list elt)
  : exn + option delay_steps :=
  match delay_step with
  | ArgNone => inr None
  | ArgInt n => inr (Some (Homo n))
  | ArgArray0 n => inr (Some (Homo n))
  | ArgArray integral a =>
      if negb integral
      then inl (ValueError "Only support delay steps of int32, int64.")
      else if decide (length target_value ≠ length a)
      then inl (ValueError "Shape is mismatched")
      else inr (Some (Heter a))
  | ArgCallable f =>
      let '(integral, a) := f (length target_value) in
      if negb integral
      then inl (ValueError "Only support delay steps of int32, int64.")
      else if decide (length target_value ≠ length a)
      then inl (ValueError "Shape is mismatched")
      else inr (Some (Heter a))
  | ArgOther => inl (ValueError "Unknown delay_steps type")
  end.

(** [int(bm.max(delay_step))]; the maximum of an empty array is an error. *)
Definition max_step (st : delay_steps) : exn + nat :=
  match st with
  | Homo n => inr n
  | Heter [] => inl (ValueError "zero-size array to reduction operation maximum")
  | Heter (x :: a) => inr (foldr Nat.max x a)
  end.

Definition lift {S A} (r : exn + A) : Py S A := fun s => (r, s).

(** [DynamicalSystem.register_delay(identifier, delay_step, delay_target,
    initial_delay_data)]. The closing
    [self.register_implicit_nodes(self.local_delay_vars)] publishes the local
    buffers among the implicit children of the node; it is a method of
    [Base], outside src, that touches no delay registry, and is left out. *)
Definition register_delay (self identifier : string) (delay_step : step_arg)
    (delay_target : target) (initial_delay_data : option (list elt))
  : Py Runtime (option delay_steps) :=
  (v <~ gets (fun rt => value_of rt delay_target) ;;
   ty <~ lift (delay_type delay_step v) ;;
   match ty with
   | None =>
       modify (set_global identifier (None, delay_target)) ;;;
       ret None
   | Some st =>
       max_delay_step <~ lift (max_step st) ;;
       match delay_target with
       | Array_ _ =>
           raise (ValueError "delay_target must be an instance of Variable")
       | Variable_ _ =>
           entry <~ gets (fun rt => global_delay_data rt !! identifier) ;;
           match entry with
           | None =>
               create_delay self identifier delay_target max_delay_step
                 initial_delay_data
           | Some (None, _) =>
               create_delay self identifier delay_target max_delay_step
                 initial_delay_data
           | Some (Some ref, _) =>
               delay <~ gets (fun rt => delays rt ref) ;;
               if decide (Z.of_nat (num_delay_step delay) - 1
                          < Z.of_nat max_delay_step)%Z
               then modify (fun rt =>
                      set_delay ref
                        (LengthDelay_reset (value_of rt delay_target)
                           max_delay_step initial_delay_data delay) rt)
               else ret tt
           end ;;;
           ret (Some st)
       end
   end)%py.

(** The default indices of a per-element read: [jnp.arange(delay_step.size)]. *)
Definition default_indices (delay_step : delay_steps) (indices : list (list nat))
  : list (list nat) :=
  match delay_step, indices with
  | Heter a, [] => [seq 0 (length a)]
  | _, _ => indices
  end.

(** [DynamicalSystem.get_delay_data(identifier, delay_step, *indices)]; it
    reads the shared objects and changes none. Calling the [None] that a
    registration without steps leaves in the registry is a [TypeError]. *)
Definition get_delay_data (rt : Runtime) (self identifier : string)
    (delay_step : option delay_steps) (indices : list (list nat))
  : exn + list elt :=
  match delay_step with
  | None =>
      match global_delay_data rt !! identifier with
      | None => inl (KeyError identifier)
      | Some (_, t) => inr (value_of rt t)
      end
  | Some st =>
      match global_delay_data rt !! identifier with
      | Some (Some ref, _) =>
          LengthDelay_call (delays rt ref) st (default_indices st indices)
      | Some (None, _) => inl (TypeError "'NoneType' object is not callable")
      | None =>
          match Collector.get (local_delay_vars rt self) identifier with
          | Some ref =>
              match st with
              | Homo _ => LengthDelay_call (delays rt ref) st []
              | Heter _ =>
                  LengthDelay_call (delays rt ref) st (default_indices st indices)
              end
          | None =>
              inl (ValueError (identifier +:+ " is not defined in delay variables."))
          end
      end
  end.

End Delay.

End Delay.

(** ** Nodes and containers ([Container], [Sequential]) *)

(** The classes that the update order of a network tells apart; [Plain] is
    any other subclass of [DynamicalSystem]. *)
Inductive node_class : Type :=
| SynConn
| NeuGroup
| Channel
| Plain.

#[global] Instance node_class_eq_dec : EqDecision node_class.
Proof. solve_decision. Defined.

(** An instance of [DynamicalSystem]: its name, its identity ([id]) and its
    class. *)
Record DynamicalSystem : Type := {
  name : string;
  ident : nat;
  cls : node_class;
}.

#[global] Instance DynamicalSystem_eq_dec : EqDecision DynamicalSystem.
Proof. solve_decision. Defined.

Module Container.

Local Set Warnings "-register-all".

(** What a constructor may receive as a sub-system: a node, a list or tuple,
    a dictionary, or an object of another type. *)
Inductive pyval : Type :=
| VNode (n : DynamicalSystem)
| VList (members : list pyval)
| VDict (items : list (string * pyval))
| VOther.

(** [self.implicit_nodes[key] = value], on the [Collector] of children. *)
Definition setitem (key : string) (value : pyval)
  : Py (list (string * pyval)) unit :=
  fun c =>
    match Collector.set c key value with
    | inl e => (inl e, c)
    | inr c' => (inr tt, c')
    end.

Definition not_an_instance : exn :=
  ValueError "Should be instance of DynamicalSystem.".

(** The body of [for module in ds_tuple]. A member of a list or tuple is
    registered under its own name, with the whole [module] as the value. *)
Definition add_module (module : pyval) : Py (list (string * pyval)) unit :=
  match module with
  | VNode n => setitem (name n) module
  | VList members =>
      for_each members (fun m =>
        match m with
        | VNode n => setitem (name n) module
        | _ => raise not_an_instance
        end)
  | VDict items =>
      for_each items (fun kv =>
        match kv.2 with
        | VNode _ => setitem kv.1 kv.2
        | _ => raise not_an_instance
        end)
  | VOther =>
      raise (ValueError "Cannot parse sub-systems. They should be DynamicalSystem or a list/tuple/dict of DynamicalSystem.")
  end.

(** The body of [for k, v in ds_dict.items()]. *)
Definition add_keyword (kv : string * pyval) : Py (list (string * pyval)) unit :=
  match kv.2 with
  | VNode _ => setitem kv.1 kv.2
  | _ => raise not_an_instance
  end.

(** [Container.__init__]: the positional sub-systems [ds_tuple], then the
    keyword ones [ds_dict], enter the empty [implicit_nodes] that the base
    class has set up. The result is the child map of the new container, or
    the exception that ends the construction. *)
Definition init (ds_tuple : list pyval) (ds_dict : list (string * pyval))
  : exn + list (string * pyval) :=
  match (for_each ds_tuple add_module ;;; for_each ds_dict add_keyword)%py []
  with
  | (inl e, _) => inl e
  | (inr _, c) => inr c
  end.

(** The bindings that a construction of accepted sub-systems asks for, in
    order, and their names. *)
Definition bindings_of (module : pyval) : list (string * pyval) :=
  match module with
  | VNode n => [(name n, module)]
  | VList members =>
      omap (fun m => match m with
                     | VNode n => Some (name n, module)
                     | _ => None
                     end) members
  | VDict items => items
  | VOther => []
  end.

Definition bindings (ds_tuple : list pyval) (ds_dict : list (string * pyval))
  : list (string * pyval) :=
  flat_map bindings_of ds_tuple ++ ds_dict.

Definition bound_names (ds_tuple : list pyval) (ds_dict : list (string * pyval))
  : list string :=
  (bindings ds_tuple ds_dict).*1.

Definition is_node (v : pyval) : Prop :=
  match v with VNode _ => True | _ => False end.

(** Sub-systems of the accepted types: nodes, lists or tuples of nodes,
    dictionaries of nodes. *)
Definition accepted (module : pyval) : Prop :=
  match module with
  | VNode _ => True
  | VList members => Forall is_node members
  | VDict items => Forall is_node items.*2
  | VOther => False
  end.

(** The reading of a list registered as one group whose members are
    children: exactly one name holds the collection, and every member is
    found under its own name. *)
Definition grouped_under_one_name (members : list pyval)
    (c : list (string * pyval)) : Prop :=
  exists group, forall key,
    Collector.get c key = Some (VList members) <-> key = group.

Definition members_are_children (members : list pyval)
    (c : list (string * pyval)) : Prop :=
  forall n, VNode n ∈ members -> Collector.get c (name n) = Some (VNode n).

End Container.

(** ** Sequential pipelines ([Sequential.__getitem__], [__getattr__]) *)

Module Sequential.

Local Set Warnings "-register-all".

(** The keys that [__getitem__] tells apart by [isinstance]: a string, a
    slice, an integer, a tuple or list of keys, anything else. *)
Inductive key : Type :=
| KStr (s : string)
| KSlice (start stop step : option Z)
| KInt (i : Z)
| KSeq (items : list key)
| KOther.

(** What [__getitem__] returns: a child, or a new [Sequential], given by its
    child map. *)
Inductive item : Type :=
| Child (v : Container.pyval)
| Pipeline (implicit_nodes : list (string * Container.pyval)).

(** Subscripting a tuple with a slice, as Python does it: the bounds are
    clamped to the length, then walked with the step. *)
Definition clamp_index (len lower upper x : Z) : Z :=
  if (x <? 0)%Z then Z.max (x + len) lower else Z.min x upper.

Definition slice_bounds (len : Z) (start stop step : option Z)
  : exn + (Z * Z * Z) :=
  let st := default 1%Z step in
  if (st =? 0)%Z then inl (ValueError "slice step cannot be zero")
  else
    let lower := if (st <? 0)%Z then (-1)%Z else 0%Z in
    let upper := if (st <? 0)%Z then (len - 1)%Z else len in
    let first :=
      match start with
      | None => if (st <? 0)%Z then upper else lower
      | Some x => clamp_index len lower upper x
      end in
    let last :=
      match stop with
      | None => if (st <? 0)%Z then lower else upper
      | Some x => clamp_index len lower upper x
      end in
    inr (first, last, st).

Fixpoint slice_walk (fuel : nat) (i stop step : Z) : list Z :=
  match fuel with
  | 0 => []
  | S fuel' =>
      if (if (0 <? step)%Z then (i <? stop)%Z else (stop <? i)%Z)
      then i :: slice_walk fuel' (i + step)%Z stop step
      else []
  end.

Definition py_slice {A} (l : list A) (start stop step : option Z)
  : exn + list A :=
  match slice_bounds (Z.of_nat (length l)) start stop step with
  | inl e => inl e
  | inr (first, last, st) =>
      inr (omap (fun i => l !! Z.to_nat i) (slice_walk (length l) first last st))
  end.

(** [Sequential(dict(zip(keys, components)))]: one positional dictionary. *)
Definition of_pairs (keys : list string) (components : list Container.pyval)
  : exn + item :=
  match Container.init [Container.VDict (zip keys components)] [] with
  | inl e => inl e
  | inr c => inr (Pipeline c)
  end.

(** One turn of the loop over a tuple or list key. The test on the element
    reads [if isinstance(i, int): raise KeyError]; an element that passes it
    subscripts the tuples of keys and values, which only a slice can do, and
    the turn then appends a tuple of keys and a tuple of values. *)
Definition gather_turn (c : list (string * Container.pyval)) (i : key)
  : Py (list (list string * list Container.pyval)) unit :=
  match i with
  | KInt _ =>
      raise (KeyError "We excepted a tuple/list of int, but we got <class 'int'>")
  | KSlice start stop step =>
      match py_slice (Collector.keys c) start stop step,
            py_slice (Collector.values c) start stop step with
      | inr ks, inr vs => modify (fun acc => acc ++ [(ks, vs)])
      | inl e, _ => raise e
      | _, inl e => raise e
      end
  | _ => raise (TypeError "tuple indices must be integers or slices")
  end.

(** [Sequential.__getitem__(key)] on the child map [c]. In the integer
    branch the source subscripts [self.implicit_nodes.values()], the view of
    a dictionary, which Python refuses; the slice and list branches build a
    tuple from the view first. After the loop of the list branch every
    gathered value is a tuple, which the constructor refuses in its
    dictionary branch before it looks at the key. *)
Definition getitem (c : list (string * Container.pyval)) (k : key)
  : exn + item :=
  match k with
  | KStr s =>
      match Collector.get c s with
      | Some v => inr (Child v)
      | None => inl (KeyError ("Does not find a component named " +:+ s))
      end
  | KSlice start stop step =>
      match py_slice (Collector.keys c) start stop step,
            py_slice (Collector.values c) start stop step with
      | inr ks, inr vs => of_pairs ks vs
      | inl e, _ => inl e
      | _, inl e => inl e
      end
  | KInt _ => inl (TypeError "'dict_values' object is not subscriptable")
  | KSeq items =>
      match for_each items (gather_turn c) [] with
      | (inl e, _) => inl e
      | (inr _, []) => inr (Pipeline [])
      | (inr _, _ :: _) => inl Container.not_an_instance
      end
  | KOther => inl (KeyError "Unknown type of key")
  end.

(** [Sequential.__getattr__(item)], consulted for a name that is no
    attribute of the object itself: the child of that name, or [None] when
    the lookup goes on to [__getattribute__]. *)
Definition getattr (c : list (string * Container.pyval)) (item : string)
  : option Container.pyval :=
  Collector.get c item.

(** What the specification expects of a list of integer indices: the
    pipeline of exactly the children at those positions. *)
Definition selects_children (c : list (string * Container.pyval))
    (positions : list nat) (result : exn + item) : Prop :=
  exists chosen,
    result = inr (Pipeline chosen) /\
    Forall2 (fun p kv => c !! p = Some kv) positions chosen.

End Sequential.

(** ** Conductance-based neuron groups ([CondNeuGroup]) *)

Module CondNeuGroup.

Section CondNeuGroup.

(** The scalars of the tensors with the arithmetic and the comparisons the
    group uses on them, and the states of a channel with its two methods.
    The integrator is the collaborator built by [odeint] or [sdeint] from
    the derivative: a function of the derivative, the state, the time and
    the step. *)
Context {R Ch : Type}.
Variables (zero milli : R).
Variables (add mul div : R -> R -> R).
Variables (ltb geb : R -> R -> bool).
Variable ch_update : gmap string R -> list R -> Ch -> Ch.
Variable ch_current : Ch -> list R -> list R.
Variable integral : (list R -> R -> list R) -> list R -> R -> R -> list R.

(** An immediate child of the group: a channel, or a node of another
    class. *)
Inductive child : Type :=
| ChannelNode (state : Ch)
| OtherNode.

(** The variables [V], [input] and [spike], the parameters [C], [A] and
    [V_th] (scalars, as the defaults are), and the immediate children by
    name. *)
Record group : Type := {
  V : list R;
  input : list R;
  spike : list bool;
  C : R;
  A : R;
  V_th : R;
  children : list (string * child);
}.

Definition set_V (v : list R) (g : group) : group :=
  {| V := v; input := input g; spike := spike g; C := C g; A := A g;
     V_th := V_th g; children := children g |}.

Definition set_input (v : list R) (g : group) : group :=
  {| V := V g; input := v; spike := spike g; C := C g; A := A g;
     V_th := V_th g; children := children g |}.

Definition set_spike (v : list bool) (g : group) : group :=
  {| V := V g; input := input g; spike := v; C := C g; A := A g;
     V_th := V_th g; children := children g |}.

Definition set_children (cs : list (string * child)) (g : group) : group :=
  {| V := V g; input := input g; spike := spike g; C := C g; A := A g;
     V_th := V_th g; children := cs |}.

(** [self.nodes(level=1, include_self=False).subset(Channel).unique()]: the
    immediate children that are channels, in order; each is an object of
    the group, named here by its position among the children. *)
Fixpoint channels_from (i : nat) (cs : list (string * child)) : list nat :=
  match cs with
  | [] => []
  | kv :: rest =>
      match kv.2 with
      | ChannelNode _ => i :: channels_from (S i) rest
      | OtherNode => channels_from (S i) rest
      end
  end.

Definition channels (g : group) : list nat := channels_from 0 (children g).

(** [CondNeuGroup.derivative(V, t)] *)
Definition derivative (g : group) (v : list R) (t : R) : list R :=
  let Iext := (fun x => mul x (div milli (A g))) <$> input g in
  let Iext :=
    foldl (fun acc kv => match kv.2 with
                         | ChannelNode st => zip_with add acc (ch_current st v)
                         | OtherNode => acc
                         end) Iext (children g) in
  (fun x => div x (C g)) <$> Iext.

(** [tdi[key]] *)
Definition shared_get (tdi : gmap string R) (key : string) : Py group R :=
  match tdi !! key with
  | Some x => ret x
  | None => raise (KeyError key)
  end.

(** [node.update(tdi, self.V.value)] on one channel: the call reads the
    voltage that the group holds when it is made. *)
Definition call_update (tdi : gmap string R) (v : list R) (c : child) : child :=
  match c with
  | ChannelNode st => ChannelNode (ch_update tdi v st)
  | OtherNode => OtherNode
  end.

Definition update_channel (tdi : gmap string R) (i : nat) : Py group unit :=
  modify (fun g =>
    set_children
      (alter (fun kv => (kv.1, call_update tdi (V g) kv.2)) i (children g)) g).

(** [CondNeuGroup.update(tdi)] *)
Definition update (tdi : gmap string R) : Py group unit :=
  (t <~ shared_get tdi "t" ;;
   dt <~ shared_get tdi "dt" ;;
   V_new <~ gets (fun g => integral (derivative g) (V g) t dt) ;;
   chs <~ gets channels ;;
   for_each chs (update_channel tdi) ;;;
   modify (fun g =>
     set_spike (zip_with (fun vn vo => geb vn (V_th g) && ltb vo (V_th g))
                  V_new (V g)) g) ;;;
   modify (fun g => set_input (replicate (length (input g)) zero) g) ;;;
   modify (set_V V_new))%py.

End CondNeuGroup.

End CondNeuGroup.

(** ** Networks ([Network.update], [DynamicalSystem.update_local_delays]) *)

Module Network.

Section Network.

(** The scalars of the tensors, the shared arguments, and what the [update]
    of a child does when the network calls it: it reads the shared objects
    and either raises or leaves new values in the variables. *)
Context {elt Sh : Type}.
Variable node_update :
  DynamicalSystem -> Sh -> @Delay.Runtime elt -> exn + (nat -> list elt).

(** An immediate child as [self.nodes(level=1, include_self=False)] gathers
    it: a dynamical system, or another object of the base class, such as a
    delay buffer published among the implicit nodes. *)
Inductive base_object : Type :=
| Dyn (n : DynamicalSystem)
| NotDyn (id : nat).

(** What a probe observes: the call of a child's [update], and the refresh
    of the buffer of a delay key with a value. *)
Inductive event : Type :=
| Updated (n : DynamicalSystem)
| Refreshed (identifier : string) (value : list elt).

Record World : Type := {
  runtime : @Delay.Runtime elt;
  probes : list event;
}.

(** Modelled from the spec: [Collector.subset(DynamicalSystem)], the entries
    whose value is an instance of the class. *)
Definition subset_dyn (c : list (string * base_object))
  : list (string * DynamicalSystem) :=
  omap (fun kv => match kv.2 with
                  | Dyn n => Some (kv.1, n)
                  | NotDyn _ => None
                  end) c.

(** Modelled from the spec: [Collector.subset(NeuGroup)] and
    [Collector.subset(SynConn)] on dynamical systems, the entries of one
    class. *)
Definition subset (k : node_class) (c : list (string * DynamicalSystem))
  : list (string * DynamicalSystem) :=
  filter (fun kv => cls kv.2 = k) c.

(** Modelled from the spec: [Collector.unique()], in which an object that
    is gathered under several names is kept once, at its first name. *)
Fixpoint unique_from (seen : list nat) (c : list (string * DynamicalSystem))
  : list (string * DynamicalSystem) :=
  match c with
  | [] => []
  | kv :: rest =>
      if decide (ident kv.2 ∈ seen) then unique_from seen rest
      else kv :: unique_from (ident kv.2 :: seen) rest
  end.

Definition unique (c : list (string * DynamicalSystem))
  : list (string * DynamicalSystem) :=
  unique_from [] c.

(** Modelled from the spec: [Collector.__sub__], the entries of the first
    collector whose name the second one does not hold. *)
Definition sub (c other : list (string * DynamicalSystem))
  : list (string * DynamicalSystem) :=
  filter (fun kv => kv.1 ∉ Collector.keys other) c.

Definition log (e : event) : Py World unit :=
  modify (fun w => {| runtime := runtime w; probes := probes w ++ [e] |}).

Definition with_variables (vars : nat -> list elt) (rt : @Delay.Runtime elt)
  : @Delay.Runtime elt :=
  {| Delay.variables := vars;
     Delay.delays := Delay.delays rt;
     Delay.allocated := Delay.allocated rt;
     Delay.global_delay_data := Delay.global_delay_data rt;
     Delay.local_delay_vars := Delay.local_delay_vars rt |}.

(** [node.update(shared)], seen by the probe when it is called. *)
Definition call_update (shared : Sh) (n : DynamicalSystem) : Py World unit :=
  (log (Updated n) ;;;
   fun w =>
     match node_update n shared (runtime w) with
     | inl e => (inl e, w)
     | inr vars =>
         (inr tt, {| runtime := with_variables vars (runtime w);
                     probes := probes w |})
     end)%py.

(** The body of the inner loop of [update_local_delays]:
    [delay = self.global_delay_data[name][0];
     target = self.global_delay_data[name][1];
     delay.update(target.value)]. *)
Definition refresh (identifier : string) : Py World unit :=
  (entry <~ gets (fun w => Delay.global_delay_data (runtime w) !! identifier) ;;
   match entry with
   | None => raise (KeyError identifier)
   | Some (None, _) =>
       raise (AttributeError "'NoneType' object has no attribute 'update'")
   | Some (Some ref, target) =>
       value <~ gets (fun w => Delay.value_of (runtime w) target) ;;
       modify (fun w =>
         {| runtime :=
              Delay.set_delay ref
                (Delay.LengthDelay_update value (Delay.delays (runtime w) ref))
                (runtime w);
            probes := probes w |}) ;;;
       log (Refreshed identifier value)
   end)%py.

(** [DynamicalSystem.update_local_delays(nodes)] with the values of a
    collector of nodes. *)
Definition update_local_delays (nodes : list DynamicalSystem) : Py World unit :=
  for_each nodes (fun node =>
    (names <~ gets (fun w =>
       Collector.keys (Delay.local_delay_vars (runtime w) (name node))) ;;
     for_each names refresh)%py).

(** [Network.update( *args)], on the collector [children] that
    [self.nodes(level=1, include_self=False)] returns. *)
Definition update (children : list (string * base_object)) (args : list Sh)
  : Py World unit :=
  let nodes := unique (subset_dyn children) in
  let neuron_groups := subset NeuGroup nodes in
  let synapse_groups := subset SynConn nodes in
  let other_nodes := sub (sub nodes neuron_groups) synapse_groups in
  match args !! 0 with
  | None => raise IndexError
  | Some shared =>
      (for_each (Collector.values synapse_groups) (call_update shared) ;;;
       for_each (Collector.values neuron_groups) (call_update shared) ;;;
       for_each (Collector.values other_nodes) (call_update shared) ;;;
       update_local_delays (Collector.values nodes))%py
  end.

(** The runtime after a child has updated without raising. *)
Definition after_update (shared : Sh) (rt : @Delay.Runtime elt)
    (n : DynamicalSystem) : @Delay.Runtime elt :=
  match node_update n shared rt with
  | inl _ => rt
  | inr vars => with_variables vars rt
  end.

(** The runtime after the buffer of a key has been refreshed. *)
Definition after_refresh (rt : @Delay.Runtime elt) (identifier : string)
  : @Delay.Runtime elt :=
  match Delay.global_delay_data rt !! identifier with
  | Some (Some ref, target) =>
      Delay.set_delay ref
        (Delay.LengthDelay_update (Delay.value_of rt target) (Delay.delays rt ref))
        rt
  | _ => rt
  end.

(** The value of the target that a key mirrors. *)
Definition target_value (rt : @Delay.Runtime elt) (identifier : string)
  : list elt :=
  match Delay.global_delay_data rt !! identifier with
  | Some (_, target) => Delay.value_of rt target
  | None => []
  end.

(** The step of one call of [update] that an event belongs to. *)
Definition phase (e : event) : nat :=
  match e with
  | Updated n =>
      match cls n with
      | SynConn => 0
      | NeuGroup => 1
      | _ => 2
      end
  | Refreshed _ _ => 3
  end.

End Network.

End Network.

(** ** Concrete states on which the properties are exercised *)

Module Sample.

Definition a : DynamicalSystem := {| name := "a"; ident := 1; cls := NeuGroup |}.

Definition b : DynamicalSystem := {| name := "b"; ident := 2; cls := NeuGroup |}.

(** A synapse that carries the name of the neuron group [a]. *)
Definition a' : DynamicalSystem := {| name := "a"; ident := 3; cls := SynConn |}.

Definition c : DynamicalSystem := {| name := "c"; ident := 4; cls := Plain |}.

(** The child map of [Sequential(a, b, c)]. *)
Definition pipeline : list (string * Container.pyval) :=
  [("a", Container.VNode a); ("b", Container.VNode b); ("c", Container.VNode c)].

(** No key is registered; variable 0 holds [[1; 2]]. *)
Definition fresh_runtime : @Delay.Runtime Z :=
  {| Delay.variables := fun _ => [1%Z; 2%Z];
     Delay.delays := fun _ => {| Delay.num_delay_step := 0; Delay.data := [] |};
     Delay.allocated := 0;
     Delay.global_delay_data := ∅;
     Delay.local_delay_vars := fun _ => [] |}.

(** The key ["pre.V"] registered by node ["syn"] with one step of delay on
    variable 0, followed by one tick: the variable takes the value [[3; 4]]
    and the buffer is refreshed with it. *)
Definition registered_runtime : @Delay.Runtime Z :=
  (Delay.register_delay 0%Z "syn" "pre.V" (Delay.ArgInt 1) (Delay.Variable_ 0)
     None fresh_runtime).2.

Definition recorded_runtime : @Delay.Runtime Z :=
  let rt := Delay.set_variable 0 [3%Z; 4%Z] registered_runtime in
  Delay.set_delay 0 (Delay.LengthDelay_update [3%Z; 4%Z] (Delay.delays rt 0)) rt.

(** One tick on variable 0 and the buffer 0 that mirrors it. *)
Definition tick (value : list Z) (rt : @Delay.Runtime Z) : @Delay.Runtime Z :=
  let rt1 := Delay.set_variable 0 value rt in
  Delay.set_delay 0 (Delay.LengthDelay_update value (Delay.delays rt1 0)) rt1.

(** The key ["pre.V"] registered with the per-element steps [[2; 0]],
    followed by two ticks. *)
Definition heter_runtime : @Delay.Runtime Z :=
  tick [5%Z; 6%Z]
    (tick [3%Z; 4%Z]
       (Delay.register_delay 0%Z "syn" "pre.V" (Delay.ArgArray true [2; 0])
          (Delay.Variable_ 0) None fresh_runtime).2).

(** A network that gathers, in this order, the neuron group [a], the
    synapse [s], the plain node [c] and a published delay buffer; [a] owns
    the delay key ["a.V"], with one step of delay on variable 1. The update
    of a node writes the number of the node into the variable of that
    number. *)
Definition s : DynamicalSystem := {| name := "s"; ident := 5; cls := SynConn |}.

Definition children : list (string * @Network.base_object) :=
  [("a", Network.Dyn a); ("s", Network.Dyn s); ("c", Network.Dyn c);
   ("a.V", Network.NotDyn 9)].

Definition node_update (n : DynamicalSystem) (shared : unit)
    (rt : @Delay.Runtime Z) : exn + (nat -> list Z) :=
  inr (<[ident n := [Z.of_nat (ident n)]]> (Delay.variables rt)).

Definition world : @Network.World Z :=
  {| Network.runtime :=
       (Delay.register_delay 0%Z "a" "a.V" (Delay.ArgInt 1) (Delay.Variable_ 1)
          None fresh_runtime).2;
     Network.probes := [] |}.

(** A neuron group of two elements with one channel, over integers: the
    integrator is a forward Euler step, a channel counts its updates and
    remembers the voltage it was given. *)
Definition euler (f : list Z -> Z -> list Z) (v : list Z) (t dt : Z) : list Z :=
  zip_with (fun x d => x + dt * d)%Z v (f v t).

Definition ch_update (tdi : gmap string Z) (v : list Z) (st : list Z) : list Z :=
  v.

Definition ch_current (st : list Z) (v : list Z) : list Z :=
  (fun _ => 1%Z) <$> v.

Definition tdi : gmap string Z := {[ "t" := 0%Z; "dt" := 1%Z ]}.

Definition group : @CondNeuGroup.group Z (list Z) :=
  {| CondNeuGroup.V := [(-2)%Z; 5%Z];
     CondNeuGroup.input := [1000%Z; 0%Z];
     CondNeuGroup.spike := [false; false];
     CondNeuGroup.C := 1%Z;
     CondNeuGroup.A := 1%Z;
     CondNeuGroup.V_th := 0%Z;
     CondNeuGroup.children :=
       [("INa", CondNeuGroup.ChannelNode []); ("probe", CondNeuGroup.OtherNode)] |}.

End Sample.

(** ** The shared context: reading and clearing ([load], [dt], [set_dt],
       [clear_shargs], [clear]) *)

Module Share.

Section Share.

(** [get_dt()] of [brainpy._src.math.environment], the default step of the
    process, which the context falls back to. *)
Variable get_dt : Context.pyobj.

(** [str(key)], as a message or a [KeyError] shows a key. *)
Definition key_text (key : Context.pyobj) : string :=
  match key with
  | Context.PyNone => "None"
  | Context.PyInt z => pretty z
  | Context.PyStr s => s
  end.

(** The property [dt]. *)
Definition dt (d : gmap Context.pyobj Context.pyobj) : Context.pyobj :=
  match d !! Context.PyStr "dt" with
  | Some v => v
  | None => get_dt
  end.

(** [set_dt(dt)], which the setter of the property calls. *)
Definition set_dt (v : Context.pyobj)
  : Py (gmap Context.pyobj Context.pyobj) unit :=
  modify (fun d => <[Context.PyStr "dt" := v]> d).

(** [load(key, value=None)] *)
Definition load (key value : Context.pyobj)
  : Py (gmap Context.pyobj Context.pyobj) Context.pyobj :=
  fun d =>
    if decide (key = Context.PyStr "dt") then (inr (dt d), d)
    else
      match d !! key with
      | Some v => (inr v, d)
      | None =>
          if decide (value = Context.PyNone)
          then (inl (KeyError ("Cannot found shared data of "
                               +:+ key_text key +:+ ".")), d)
          else (inr value, d)
      end.

(** [get_shargs()]: a copy of the arguments. *)
Definition get_shargs
  : Py (gmap Context.pyobj Context.pyobj) (gmap Context.pyobj Context.pyobj) :=
  gets (fun d => d).

(** [self._arguments.pop(a)] *)
Definition pop (a : Context.pyobj)
  : Py (gmap Context.pyobj Context.pyobj) unit :=
  fun d =>
    match d !! a with
    | Some _ => (inr tt, delete a d)
    | None => (inl (KeyError (key_text a)), d)
    end.

(** [clear_shargs( *args)] *)
Definition clear_shargs (args : list Context.pyobj)
  : Py (gmap Context.pyobj Context.pyobj) unit :=
  if decide (0 < length args) then for_each args pop
  else modify (fun _ => ∅).

(** [clear()] *)
Definition clear : Py (gmap Context.pyobj Context.pyobj) unit :=
  modify (fun _ => ∅).

End Share.

End Share.

(** ** The end of a node ([DynamicalSystem.__del__]) *)

Module Teardown.

Section Teardown.
Context {elt : Type}.




End Teardown.

End Teardown.

(** ** Plain containers ([Container.update]) *)

Module Composite.

Section Composite.
Context {elt Sh : Type}.
Variable node_update :
  DynamicalSystem -> Sh -> @Delay.Runtime elt -> exn + (nat -> list elt).

(** [Container.update(tdi)], on the collector [children] that
    [self.nodes(level=1, include_self=False)] returns. *)
Definition update (children : list (string * @Network.base_object))
    (tdi : Sh) : Py (@Network.World elt) unit :=
  let nodes := Network.unique (Network.subset_dyn children) in
  for_each (Collector.values nodes) (Network.call_update node_update tdi).

End Composite.

End Composite.

(** ** Access to the children of a container ([Container.__getitem__],
       [Container.__getattr__]) *)

Module Access.

(** [Container.__getitem__(item)] *)
Definition getitem (c : list (string * Container.pyval)) (item : string)
  : exn + Container.pyval :=
  match Collector.get c item with
  | Some v => inr v
  | None => inl (ValueError ("Unknown item " +:+ item))
  end.

(** [Container.__getattr__(item)], consulted for a name that is no
    attribute of the object itself: the child of that name, or [None] when
    the lookup goes on to [__getattribute__]. *)
Definition getattr (c : list (string * Container.pyval)) (item : string)
  : option Container.pyval :=
  Collector.get c item.

End Access.

(** ** Running a sequential pipeline ([Sequential.update]) *)

Module Feed.

(** The position in a sequence of [len] elements that a bound of a slice
    with a positive step stands for. *)
Definition position (len : nat) (x : Z) : nat :=
  Z.to_nat (Sequential.clamp_index (Z.of_nat len) 0 (Z.of_nat len) x).

(** A pipeline as a constructor builds it from nodes: every name once,
    every value a node. *)
Definition well_formed (c : list (string * Container.pyval)) : Prop :=
  NoDup (Collector.keys c) /\ Forall Container.is_node (Collector.values c).

Section Feed.

(** The data passed along, the shared arguments, the state of the nodes,
    and the call [node(sha, x)] of a child, which runs its [update]. *)
Context {X Sh S : Type}.
Variable node_call : Container.pyval -> Sh -> X -> Py S X.

(** [Sequential.update(sha, x)]:
    [for node in self.implicit_nodes.values(): x = node(sha, x)], then
    [return x]. *)
Fixpoint update (c : list (string * Container.pyval)) (sha : Sh) (x : X)
  : Py S X :=
  match c with
  | [] => ret x
  | kv :: rest => bind (node_call kv.2 sha x) (fun y => update rest sha y)
  end.

End Feed.

End Feed.

(** ** Components of a synapse ([SynComponent.register_master]) *)

Module SynComponent.

(** [SynComponent.register_master(master)], on the attribute [master] of
    the component, which is absent until a master is registered. *)
Definition register_master (master : DynamicalSystem)
  : Py (option DynamicalSystem) unit :=
  fun current =>
    if decide (cls master ≠ SynConn)
    then (inl (TypeError "master must be instance of SynConn"), current)
    else
      match current with
      | Some m =>
          if decide (m ≠ master)
          then (inl (ValueError "master has been registered, but we got another master going to be registered."),
                current)
          else (inr tt, Some master)
      | None => (inr tt, Some master)
      end.

End SynComponent.

(** ** Resetting ([DynamicalSystem.reset_state],
       [DynamicalSystem.reset_local_delays], [Network.reset_state]) *)

Module Reset.

Section Reset.

(** The scalars, the zero among them, and what [reset_state(batch_size)] of
    a child does when it is called: it reads the shared objects and either
    raises or leaves new values in the variables. *)
Context {elt : Type}.
Variable zero : elt.
Variable node_reset :
  DynamicalSystem -> option nat -> @Delay.Runtime elt -> exn + (nat -> list elt).

(** What a probe observes: the call of a child's [reset_state], and the
    reset of the buffer of a delay key with a value. *)
Inductive event : Type :=
| ResetCalled (n : DynamicalSystem)
| DelayReset (identifier : string) (value : list elt).

Record World : Type := {
  runtime : @Delay.Runtime elt;
  probes : list event;
}.

Definition log (e : event) : Py World unit :=
  modify (fun w => {| runtime := runtime w; probes := probes w ++ [e] |}).

(** [node.reset_state(batch_size)], seen by the probe when it is called. *)
Definition call_reset (batch_size : option nat) (n : DynamicalSystem)
  : Py World unit :=
  (log (ResetCalled n) ;;;
   fun w =>
     match node_reset n batch_size (runtime w) with
     | inl e => (inl e, w)
     | inr vars =>
         (inr tt, {| runtime := Network.with_variables vars (runtime w);
                     probes := probes w |})
     end)%py.

(** The body of the inner loop of [reset_local_delays]:
    [delay = self.global_delay_data[name][0];
     target = self.global_delay_data[name][1];
     delay.reset(target.value)].
    Modelled from the spec: [LengthDelay.reset] with the target alone resets
    the buffer to the value of the target and keeps its capacity. *)
Definition reset_delay (identifier : string) : Py World unit :=
  (entry <~ gets (fun w => Delay.global_delay_data (runtime w) !! identifier) ;;
   match entry with
   | None => raise (KeyError identifier)
   | Some (None, _) =>
       raise (AttributeError "'NoneType' object has no attribute 'reset'")
   | Some (Some ref, target) =>
       value <~ gets (fun w => Delay.value_of (runtime w) target) ;;
       modify (fun w =>
         {| runtime :=
              Delay.set_delay ref
                (Delay.LengthDelay_reset zero value
                   (Delay.num_delay_step (Delay.delays (runtime w) ref) - 1)
                   None (Delay.delays (runtime w) ref))
                (runtime w);
            probes := probes w |}) ;;;
       log (DelayReset identifier value)
   end)%py.

(** [DynamicalSystem.reset_local_delays(nodes)] with the values of a
    collector of nodes. *)
Definition reset_local_delays (nodes : list DynamicalSystem) : Py World unit :=
  for_each nodes (fun node =>
    (names <~ gets (fun w =>
       Collector.keys (Delay.local_delay_vars (runtime w) (name node))) ;;
     for_each names reset_delay)%py).

(** [Network.reset_state(batch_size)], on the collector [children] that
    [self.nodes(level=1, include_self=False)] returns. *)
Definition reset_state (children : list (string * @Network.base_object))
    (batch_size : option nat) : Py World unit :=
  let nodes := Network.unique (Network.subset_dyn children) in
  let neuron_groups := Network.subset NeuGroup nodes in
  let synapse_groups := Network.subset SynConn nodes in
  (for_each (Collector.values neuron_groups) (call_reset batch_size) ;;;
   for_each (Collector.values synapse_groups) (call_reset batch_size) ;;;
   for_each
     (Collector.values
        (Network.sub (Network.sub nodes neuron_groups) synapse_groups))
     (call_reset batch_size) ;;;
   reset_local_delays (Collector.values nodes))%py.


(** The runtime after a child has been reset without raising. *)
Definition after_reset (batch_size : option nat) (rt : @Delay.Runtime elt)
    (n : DynamicalSystem) : @Delay.Runtime elt :=
  match node_reset n batch_size rt with
  | inl _ => rt
  | inr vars => Network.with_variables vars rt
  end.

(** The runtime after the buffer of a key has been reset. *)
Definition after_delay_reset (rt : @Delay.Runtime elt) (identifier : string)
  : @Delay.Runtime elt :=
  match Delay.global_delay_data rt !! identifier with
  | Some (Some ref, target) =>
      Delay.set_delay ref
        (Delay.LengthDelay_reset zero (Delay.value_of rt target)
           (Delay.num_delay_step (Delay.delays rt ref) - 1) None
           (Delay.delays rt ref))
        rt
  | _ => rt
  end.

End Reset.

End Reset.

(** ** The master of a channel ([_check], [check_master]) *)

Module Master.

Local Set Warnings "-register-all".

Section Master.

(** The classes, and [issubclass] on them. *)
Context {Cls : Type}.
Variable issubclass : Cls -> Cls -> bool.

(** What [check_master] may receive as a channel: an object, which is an
    instance of [Channel] or not and has an attribute [master_type] or not;
    a list or tuple; a dictionary. *)
Inductive obj : Type :=
| Instance (is_channel : bool) (master_type : option Cls)
| Seq (members : list obj)
| Dict (items : list (string * obj)).

(** [child.master_type], when [hasattr(child, 'master_type')]. *)
Definition master_type_of (child : obj) : option Cls :=
  match child with
  | Instance _ mt => mt
  | _ => None
  end.

(** [_check(master, child)] *)
Definition _check (master : Cls) (child : obj) : exn + unit :=
  match master_type_of child with
  | None =>
      inl (ValueError "Child class should define master_type to specify the type of the master.")
  | Some mt =>
      if issubclass master mt then inr tt
      else inl (TypeError "Type does not match.")
  end.

(** A loop whose body may raise. *)
Fixpoint each {A} (body : A -> exn + unit) (xs : list A) : exn + unit :=
  match xs with
  | [] => inr tt
  | x :: rest =>
      match body x with
      | inl e => inl e
      | inr _ => each body rest
      end
  end.

(** [check_master(master, *channels, **named_channels)] *)
Definition check_master (master : Cls) (channels : list obj)
    (named_channels : list (string * obj)) : exn + unit :=
  match
    each (fun channel =>
            match channel with
            | Instance true _ => _check master channel
            | Seq members => each (_check master) members
            | Dict items => each (_check master) items.*2
            | Instance false _ => inl (ValueError "Do not support the type.")
            end) channels
  with
  | inl e => inl e
  | inr _ =>
      each (fun channel =>
              match channel with
              | Instance true _ => _check master channel
              | _ => inl (ValueError "Do not support the type.")
              end) named_channels.*2
  end.

(** A child that declares a master type which the master is a subclass
    of. *)
Definition compatible (master : Cls) (child : obj) : Prop :=
  exists mt, master_type_of child = Some mt /\ issubclass master mt = true.

Definition is_channel (child : obj) : Prop :=
  match child with
  | Instance true _ => True
  | _ => False
  end.

End Master.

End Master.

(** ** Further concrete states *)

Module Scenario.


(** A reset that writes zeros into the variable of the number of the
    node, for the batch size or for two elements. *)
Definition node_reset (n : DynamicalSystem) (batch_size : option nat)
    (rt : @Delay.Runtime Z) : exn + (nat -> list Z) :=
  inr (<[ident n := replicate (default 2 batch_size) 0%Z]> (Delay.variables rt)).

Definition reset_world : @Reset.World Z :=
  {| Reset.runtime := Network.runtime Sample.world; Reset.probes := [] |}.

(** A neuron of which the channel raises the voltage by one per tick, from
    two below the threshold. *)
Definition rising_group : @CondNeuGroup.group Z (list Z) :=
  {| CondNeuGroup.V := [(-2)%Z];
     CondNeuGroup.input := [0%Z];
     CondNeuGroup.spike := [false];
     CondNeuGroup.C := 1%Z;
     CondNeuGroup.A := 1%Z;
     CondNeuGroup.V_th := 0%Z;
     CondNeuGroup.children := [("INa", CondNeuGroup.ChannelNode [])] |}.

End Scenario.

(** * Properties *)

(** ** Loops and ranges *)

Lemma for_each_app {S A} (xs ys : list A) (body : A -> Py S unit) (s : S) :
  for_each (xs ++ ys) body s =
  match for_each xs body s with
  | (inl e, s') => (inl e, s')
  | (inr _, s') => for_each ys body s'
  end.
Proof.
  revert s. induction xs as [|x xs IH]; intros s; simpl; [done|].
  unfold bind. destruct (body x s) as [[e|[]] s1]; [done|]. apply IH.
Qed.

Lemma for_each_modify {S A} (xs : list A) (f : A -> S -> S) (s : S) :
  for_each xs (fun x => modify (f x)) s = (inr tt, foldl (fun s x => f x s) s xs).
Proof.
  revert s. induction xs as [|x xs IH]; intros s; simpl; [done|].
  unfold bind, modify. apply IH.
Qed.

Lemma elem_of_range_fuel (fuel start stop step x : nat) :
  0 < step -> stop <= start + fuel ->
  x ∈ range_fuel fuel start stop step <->
  x < stop /\ exists k, x = start + k * step.
Proof.
  intros Hstep. revert start.
  induction fuel as [|fuel IH]; intros start Hfuel; simpl.
  - split; [by intros ?%elem_of_nil | intros [? [k ->]]; nia].
  - destruct (decide (start < stop)) as [Hlt|Hge].
    + rewrite elem_of_cons, IH by nia. split.
      * intros [->|[? [k ->]]]; [split; [done|by exists 0] |].
        split; [done|]. exists (S k). lia.
      * intros [? [[|k] ->]]; [left; lia|]. right. split; [done|].
        exists k. lia.
    + split; [by intros ?%elem_of_nil | intros [? [k ->]]; nia].
Qed.

Lemma elem_of_range (stop step x : nat) :
  0 < step ->
  x ∈ range 0 stop step <-> x < stop /\ exists k, x = k * step.
Proof.
  intros Hstep. unfold range.
  rewrite elem_of_range_fuel by lia. naive_solver.
Qed.

(** ** The shared context *)

(** The positional loop raises nothing but [IndexError]. *)
Lemma save_pairs_outcome (args : list Context.pyobj) (idxs : list nat)
    (d : gmap Context.pyobj Context.pyobj) :
  (for_each idxs (Context.save_pair args) d).1 = inr tt \/
  (for_each idxs (Context.save_pair args) d).1 = inl IndexError.
Proof.
  revert d. induction idxs as [|i idxs IH]; intros d; simpl; [by left|].
  unfold bind, Context.save_pair.
  destruct (args !! (i * 2)) as [k|]; [|by right].
  destruct (args !! (i * 2 + 1)) as [v|]; [|by right].
  simpl. apply IH.
Qed.

(** A turn whose first position is out of range makes the loop raise. *)
Lemma save_pairs_overrun (args : list Context.pyobj) (idxs : list nat)
    (d : gmap Context.pyobj Context.pyobj) (i : nat) :
  i ∈ idxs -> length args <= i * 2 ->
  (for_each idxs (Context.save_pair args) d).1 = inl IndexError.
Proof.
  intros Hi Hlen. apply list_elem_of_split in Hi as (l1 & l2 & ->).
  rewrite for_each_app.
  destruct (save_pairs_outcome args l1 d) as [Hok|Herr].
  - destruct (for_each l1 (Context.save_pair args) d) as [[e|[]] d1];
      simpl in Hok; [done|].
    simpl. unfold bind, Context.save_pair.
    by rewrite (lookup_ge_None_2 args (i * 2)) by lia.
  - destruct (for_each l1 (Context.save_pair args) d) as [[e|[]] d1];
      simpl in Herr; [|done]. by simplify_eq.
Qed.

Lemma save_kwargs_lookup (kwargs : list (string * Context.pyobj))
    (d : gmap Context.pyobj Context.pyobj) (k : string) (v : Context.pyobj) :
  NoDup kwargs.*1 -> (k, v) ∈ kwargs ->
  (Context.save_kwargs kwargs d).1 = inr tt /\
  (Context.save_kwargs kwargs d).2 !! Context.PyStr k = Some v.
Proof.
  unfold Context.save_kwargs.
  rewrite (for_each_modify kwargs (fun kv d => <[Context.PyStr kv.1 := kv.2]> d)).
  simpl. intros Hnd Hin. split; [done|].
  revert d Hnd Hin. induction kwargs as [|[k' v'] kwargs IH] using rev_ind;
    intros d Hnd Hin; [by apply elem_of_nil in Hin|].
  rewrite foldl_app. simpl.
  rewrite fmap_app in Hnd. apply NoDup_app in Hnd as (Hnd1 & Hnd2 & _).
  apply elem_of_app in Hin as [Hin|Hin].
  - rewrite lookup_insert_ne; [by apply IH|].
    intros [= ->]. eapply Hnd2; [|apply list_elem_of_here].
    by apply (list_elem_of_fmap_2 fst _ (k, v)).
  - apply list_elem_of_singleton in Hin as [= -> ->].
    apply lookup_insert_eq.
Qed.

(** C10. [save] stores every keyword-named scalar whenever it returns, and it
    returns for zero or one positional pair, the pair being stored under its
    key before the keywords. The positional loop takes [i] from
    [range(0, len(args), 2)] and reads positions [2 * i] and [2 * i + 1]: with
    two pairs it stores the first and raises [IndexError] at position 4, the
    store keeping the first pair; with three pairs it stores positions 0, 1
    and 4, 5 and raises at position 8; with two or more pairs it always
    raises. *)
Theorem save_reads_doubled_positions :
  (forall args kwargs d d' k v,
      Context.save args kwargs d = (inr tt, d') ->
      NoDup kwargs.*1 -> (k, v) ∈ kwargs ->
      d' !! Context.PyStr k = Some v) /\
  (forall kwargs d,
      Context.save [] kwargs d =
      (inr tt, foldl (fun d kv => <[Context.PyStr kv.1 := kv.2]> d) d kwargs)) /\
  (forall k v kwargs d,
      Context.save [k; v] kwargs d =
      (inr tt, foldl (fun d kv => <[Context.PyStr kv.1 := kv.2]> d)
                     (<[k := v]> d) kwargs)) /\
  (forall k1 v1 k2 v2 kwargs d,
      Context.save [k1; v1; k2; v2] kwargs d =
      (inl IndexError, <[k1 := v1]> d)) /\
  (forall k1 v1 k2 v2 k3 v3 kwargs d,
      Context.save [k1; v1; k2; v2; k3; v3] kwargs d =
      (inl IndexError, <[k3 := v3]> (<[k1 := v1]> d))) /\
  (forall args kwargs d,
      length args mod 2 = 0 -> 4 <= length args ->
      (Context.save args kwargs d).1 = inl IndexError).
Proof.
  split_and!.
  - intros args kwargs d d' k v Hrun Hnd Hin. unfold Context.save in Hrun.
    destruct (decide (length args mod 2 = 0)); [|done].
    unfold bind in Hrun.
    destruct (for_each _ (Context.save_pair args) d) as [[err|[]] d1]; [done|].
    destruct (save_kwargs_lookup kwargs d1 k v Hnd Hin) as [_ Hk].
    by rewrite Hrun in Hk.
  - intros kwargs d. unfold Context.save, Context.save_kwargs. simpl.
    unfold bind. simpl.
    apply (for_each_modify kwargs (fun kv d => <[Context.PyStr kv.1 := kv.2]> d)).
  - intros k v kwargs d. unfold Context.save, Context.save_kwargs. simpl.
    unfold bind. simpl.
    apply (for_each_modify kwargs (fun kv d => <[Context.PyStr kv.1 := kv.2]> d)).
  - intros. unfold Context.save. rewrite decide_True by done.
    unfold bind. cbn. reflexivity.
  - intros. unfold Context.save. rewrite decide_True by done.
    unfold bind. cbn. reflexivity.
  - intros args kwargs d Heven Hlen. unfold Context.save.
    rewrite decide_True by done. unfold bind.
    assert (length args - 2 ∈ range 0 (length args) 2) as Hmem.
    { apply elem_of_range; [lia|]. split; [lia|].
      exists (length args / 2 - 1).
      pose proof (Nat.div_mod_eq (length args) 2). lia. }
    pose proof (save_pairs_overrun args _ d _ Hmem) as Hover.
    destruct (for_each _ (Context.save_pair args) d) as [[err|[]] d1];
      simpl; simpl in Hover.
    + apply Hover. lia.
    + discriminate Hover. lia.
Qed.

Lemma save_reads_doubled_positions_witness :
  (Context.save [Context.PyStr "i"; Context.PyInt 0]
     [("t", Context.PyInt 3); ("dt", Context.PyInt 1)] ∅).2
    !! Context.PyStr "dt" = Some (Context.PyInt 1) /\
  (Context.save [Context.PyStr "a"; Context.PyInt 1;
                 Context.PyStr "b"; Context.PyInt 2]
     [("t", Context.PyInt 3)] ∅).1 = inl IndexError.
Proof.
  split.
  - apply (proj1 save_reads_doubled_positions
             [Context.PyStr "i"; Context.PyInt 0]
             [("t", Context.PyInt 3); ("dt", Context.PyInt 1)] ∅ _ "dt").
    + vm_compute. reflexivity.
    + simpl. apply NoDup_cons. split; [by intros ?%list_elem_of_singleton|].
      apply NoDup_singleton.
    + apply list_elem_of_further, list_elem_of_here.
  - apply (proj2 (proj2 (proj2 (proj2 (proj2 save_reads_doubled_positions))))).
    + reflexivity.
    + simpl. lia.
Defined.

(** ** Delay registration and delayed reads *)

(** C4. Registering a key without steps creates no buffer: no delay object
    is allocated or changed and no local delay variable is added; the
    registry binds the key to the target variable alone. From then on, in
    every state with that registry entry, whatever values the variables have
    taken since, [get_delay_data(key, None)] is the value the target holds
    in that state. *)
Theorem register_none_is_pass_through {elt : Type} (zero : elt)
    (rt : Delay.Runtime) (self key : string) (T : nat)
    (initial : option (list elt)) :
  let out := Delay.register_delay zero self key Delay.ArgNone
               (Delay.Variable_ T) initial rt in
  out.1 = inr None /\
  Delay.delays out.2 = Delay.delays rt /\
  Delay.allocated out.2 = Delay.allocated rt /\
  Delay.local_delay_vars out.2 = Delay.local_delay_vars rt /\
  Delay.variables out.2 = Delay.variables rt /\
  Delay.global_delay_data out.2 !! key = Some (None, Delay.Variable_ T) /\
  (forall reader indices,
      Delay.get_delay_data out.2 reader key None indices
      = inr (Delay.variables rt T)) /\
  (forall reader indices value,
      Delay.get_delay_data (Delay.set_variable T value out.2) reader key None
        indices
      = inr value) /\
  (forall later reader indices,
      Delay.global_delay_data later !! key
      = Delay.global_delay_data out.2 !! key ->
      Delay.get_delay_data later reader key None indices
      = inr (Delay.variables later T)).
Proof.
  cbn. split_and!; try reflexivity.
  - apply lookup_insert_eq.
  - intros reader indices. unfold Delay.get_delay_data. cbn.
    by rewrite lookup_insert_eq.
  - intros reader indices value. unfold Delay.get_delay_data. cbn.
    rewrite lookup_insert_eq. cbn. by rewrite fn_lookup_insert.
  - intros later reader indices Hreg. unfold Delay.get_delay_data.
    rewrite Hreg. cbn. by rewrite lookup_insert_eq.
Qed.

Lemma register_none_is_pass_through_witness :
  Delay.get_delay_data
    (Delay.set_variable 0 [7%Z; 8%Z]
       (Delay.register_delay 0%Z "pre" "pre.spike" Delay.ArgNone
          (Delay.Variable_ 0) None Sample.fresh_runtime).2)
    "syn" "pre.spike" None []
  = inr [7%Z; 8%Z].
Proof.
  apply (proj2 (proj2 (proj2 (proj2 (proj2 (proj2 (proj2 (proj2
    (register_none_is_pass_through 0%Z Sample.fresh_runtime "pre" "pre.spike"
       0 None))))))))
    (Delay.set_variable 0 [7%Z; 8%Z]
       (Delay.register_delay 0%Z "pre" "pre.spike" Delay.ArgNone
          (Delay.Variable_ 0) None Sample.fresh_runtime).2)
    "syn" []).
  reflexivity.
Defined.

(** The descriptive error of [get_delay_data]: with delay steps given, a key
    that is in neither registry raises the [ValueError] that names it. *)
Lemma get_delay_data_unregistered_steps {elt : Type} (rt : @Delay.Runtime elt)
    (self key : string) (st : Delay.delay_steps) (indices : list (list nat)) :
  Delay.global_delay_data rt !! key = None ->
  Collector.get (Delay.local_delay_vars rt self) key = None ->
  Delay.get_delay_data rt self key (Some st) indices
  = inl (ValueError (key +:+ " is not defined in delay variables.")).
Proof. intros Hg Hl. unfold Delay.get_delay_data. by rewrite Hg, Hl. Qed.

(** C7, at [steps=None]: the read returns from its first branch before any
    registry is consulted for membership, and an unregistered key surfaces
    as the bare [KeyError] of the dictionary lookup, not as the [ValueError]
    that the other branch raises. *)
Theorem get_delay_data_unregistered_none {elt : Type} (rt : @Delay.Runtime elt)
    (self key : string) (indices : list (list nat)) :
  Delay.global_delay_data rt !! key = None ->
  Collector.get (Delay.local_delay_vars rt self) key = None ->
  Delay.get_delay_data rt self key None indices = inl (KeyError key) /\
  Delay.get_delay_data rt self key None indices
  <> inl (ValueError (key +:+ " is not defined in delay variables.")).
Proof. intros Hg Hl. unfold Delay.get_delay_data. by rewrite Hg. Qed.

Lemma get_delay_data_unregistered_none_witness :
  Delay.get_delay_data Sample.fresh_runtime "syn" "pre.spike" None []
  = inl (KeyError "pre.spike").
Proof.
  apply (get_delay_data_unregistered_none Sample.fresh_runtime
           "syn" "pre.spike" []); reflexivity.
Defined.

(** The history that the model of the buffer keeps: after some ticks the
    slice at a lag inside the capacity is the value refreshed that many
    ticks ago, then the value at the registration, then the initial fill. *)
Lemma refreshed_history {elt : Type} (values : list (list elt))
    (d : @Delay.LengthDelay elt) :
  length (Delay.data d) = Delay.num_delay_step d ->
  Delay.num_delay_step (Delay.refreshed values d) = Delay.num_delay_step d /\
  Delay.data (Delay.refreshed values d)
  = take (Delay.num_delay_step d) (reverse values ++ Delay.data d).
Proof.
  intros Hlen. unfold Delay.refreshed.
  induction values as [|v values [IHn IHd]] using rev_ind.
  - cbn. split; [done|]. by rewrite take_ge by lia.
  - rewrite foldl_app. cbn [foldl Delay.LengthDelay_update Delay.num_delay_step
                             Delay.data].
    split; [done|]. rewrite IHn, IHd, reverse_app. cbn.
    destruct (Delay.num_delay_step d) as [|n]; [done|].
    cbn. f_equal. rewrite take_take. f_equal. lia.
Qed.

Lemma registered_history {elt : Type} (zero : elt) (values : list (list elt))
    (v0 : list elt) (m lag : nat) (initial : option (list elt)) :
  lag <= m ->
  Delay.data (Delay.refreshed values (Delay.LengthDelay_init zero v0 m initial))
    !! lag
  = (reverse values ++ v0 ::
     replicate m (default (Delay.zeros_like zero v0) initial)) !! lag.
Proof.
  intros Hlag.
  destruct (refreshed_history values (Delay.LengthDelay_init zero v0 m initial))
    as [_ ->]; cbn.
  - rewrite length_replicate. lia.
  - apply lookup_take_lt. lia.
Qed.

(** C3, as stated, fails: after one recorded tick the buffer of ["pre.V"]
    holds [[1; 2]] at lag 1; registering the key again with three steps
    resets the buffer, and lag 1 holds the zero fill. *)
Lemma register_grow_forgets_history :
  let after :=
    (Delay.register_delay 0%Z "syn" "pre.V" (Delay.ArgInt 3) (Delay.Variable_ 0)
       None Sample.recorded_runtime).2 in
  Delay.get_delay_data Sample.recorded_runtime "syn" "pre.V"
    (Some (Delay.Homo 1)) [] = inr [1%Z; 2%Z] /\
  Delay.get_delay_data after "syn" "pre.V" (Some (Delay.Homo 1)) []
  = inr [0%Z; 0%Z] /\
  ~ Delay.history_preserved (Delay.delays Sample.recorded_runtime 0)
      (Delay.delays after 0).
Proof.
  cbn zeta. split_and!; [reflexivity | reflexivity |].
  intros Hkeep. specialize (Hkeep 1). vm_compute in Hkeep.
  specialize (Hkeep (le_n 2)). discriminate Hkeep.
Qed.

(** C3, amended. A key holds a buffer with capacity for [s] steps. A later
    registration whose steps have maximum [s'] returns the steps; if
    [s < s'] the buffer is reset in place: its capacity becomes [s' + 1] and
    its content is initialised anew from the current value of the given
    target and the initial data; if [s' <= s] nothing changes. The capacity
    afterwards is [max s s' + 1]: it never decreases. *)
Theorem register_delay_grows_by_reset {elt : Type} (zero : elt)
    (rt : Delay.Runtime) (self key : string) (ref : nat) (t : Delay.target)
    (s s' T : nat) (delay_step : Delay.step_arg) (st : Delay.delay_steps)
    (initial : option (list elt)) :
  Delay.global_delay_data rt !! key = Some (Some ref, t) ->
  Delay.num_delay_step (Delay.delays rt ref) = s + 1 ->
  Delay.delay_type delay_step (Delay.variables rt T) = inr (Some st) ->
  Delay.max_step st = inr s' ->
  let out := Delay.register_delay zero self key delay_step (Delay.Variable_ T)
               initial rt in
  out.1 = inr (Some st) /\
  (s < s' ->
   out.2 = Delay.set_delay ref
             (Delay.LengthDelay_init zero (Delay.variables rt T) s' initial) rt) /\
  (s' <= s -> out.2 = rt) /\
  Delay.num_delay_step (Delay.delays out.2 ref) = s `max` s' + 1.
Proof.
  intros Hreg Hcap Hty Hmax. cbn zeta.
  unfold Delay.register_delay, bind, gets, Delay.lift. cbn.
  rewrite Hty, Hmax, Hreg, Hcap. cbn.
  destruct (decide (Z.of_nat (s + 1) - 1 < Z.of_nat s')%Z) as [Hlt|Hge]; cbn.
  - split_and!; [done | done | lia |].
    rewrite fn_lookup_insert. cbn. lia.
  - split_and!; [done | lia | by destruct rt |].
    rewrite Hcap. lia.
Qed.

Lemma register_delay_grows_by_reset_witness :
  let out := Delay.register_delay 0%Z "syn" "pre.V" (Delay.ArgInt 3)
               (Delay.Variable_ 0) None Sample.recorded_runtime in
  out.1 = inr (Some (Delay.Homo 3)) /\
  Delay.num_delay_step (Delay.delays out.2 0) = 4.
Proof.
  cbn zeta.
  destruct (register_delay_grows_by_reset 0%Z Sample.recorded_runtime
              "syn" "pre.V" 0 (Delay.Variable_ 0) 1 3 0 (Delay.ArgInt 3)
              (Delay.Homo 3) None)
    as (Hret & _ & _ & Hcap); [reflexivity ..|].
  split; [exact Hret | exact Hcap].
Defined.

(** Two index arrays of one length that stay inside the history select, at
    every position, the element they name. *)
Lemma gather2_defined {elt : Type} (d : list (list elt)) (lags idx : list nat) :
  length lags = length idx ->
  (forall j lag i, lags !! j = Some lag -> idx !! j = Some i ->
                   is_Some (d !! lag ≫= (.!! i))) ->
  exists out,
    Delay.gather2 d lags idx = inr out /\
    length out = length lags /\
    forall j lag i, lags !! j = Some lag -> idx !! j = Some i ->
                    out !! j = d !! lag ≫= (.!! i).
Proof.
  revert idx. induction lags as [|lag lags IH]; intros [|i idx] Hlen Hin;
    simplify_eq/=.
  - exists []. split_and!; [done | done |]. intros j ? ? Hj. by destruct j.
  - destruct (Hin 0 lag i eq_refl eq_refl) as [x Hx]. rewrite Hx.
    destruct (IH idx Hlen) as (out & -> & Hlo & Hout).
    { intros j lag' i' Hl Hi. exact (Hin (S j) lag' i' Hl Hi). }
    exists (x :: out). split_and!; [done | by rewrite <- Hlo |].
    intros [|j] lag' i' Hl Hi; simplify_eq/=; [done|]. by apply Hout.
Qed.

(** C6. For a key whose buffer is in the registry, a read with a
    per-element step array [s] and no indices is the read with the indices
    [arange(s.size)]; when every element [k] has its lag [s[k]] inside the
    history, the read returns one value per element, the one at position
    [k] being element [k] of the history at lag [s[k]]. *)
Theorem heter_read_takes_own_lag {elt : Type} (rt : @Delay.Runtime elt)
    (self key : string) (ref : nat) (t : Delay.target) (s : list nat) :
  Delay.global_delay_data rt !! key = Some (Some ref, t) ->
  (forall k lag, s !! k = Some lag ->
                 is_Some (Delay.data (Delay.delays rt ref) !! lag ≫= (.!! k))) ->
  Delay.get_delay_data rt self key (Some (Delay.Heter s)) []
  = Delay.get_delay_data rt self key (Some (Delay.Heter s)) [seq 0 (length s)] /\
  exists out,
    Delay.get_delay_data rt self key (Some (Delay.Heter s)) [] = inr out /\
    length out = length s /\
    forall k lag, s !! k = Some lag ->
                  out !! k = Delay.data (Delay.delays rt ref) !! lag ≫= (.!! k).
Proof.
  intros Hreg Hin. unfold Delay.get_delay_data. rewrite Hreg. cbn.
  split; [done|].
  destruct (gather2_defined (Delay.data (Delay.delays rt ref)) s
              (seq 0 (length s))) as (out & Hrun & Hlen & Hout).
  - by rewrite length_seq.
  - intros j lag i Hl Hi. apply lookup_seq in Hi as [-> _]. by apply Hin.
  - exists out. split_and!; [done | done |].
    intros k lag Hk. apply (Hout k lag k Hk).
    apply lookup_seq. split; [done|]. by apply lookup_lt_Some in Hk.
Qed.

Lemma heter_read_takes_own_lag_witness :
  exists out,
    Delay.get_delay_data Sample.heter_runtime "syn" "pre.V"
      (Some (Delay.Heter [2; 0])) [] = inr out /\
    length out = 2 /\
    forall k lag, [2; 0] !! k = Some lag ->
                  out !! k
                  = Delay.data (Delay.delays Sample.heter_runtime 0) !! lag
                      ≫= (.!! k).
Proof.
  apply (heter_read_takes_own_lag Sample.heter_runtime "syn" "pre.V" 0
           (Delay.Variable_ 0) [2; 0]).
  - reflexivity.
  - intros [|[|k]] lag Hk; simplify_eq/=; vm_compute; eauto.
Defined.

(** The read of the sample: element 0 two ticks ago, element 1 now. *)
Example heter_read_sample :
  Delay.get_delay_data Sample.heter_runtime "syn" "pre.V"
    (Some (Delay.Heter [2; 0])) [] = inr [1%Z; 6%Z].
Proof. reflexivity. Qed.

(** Where the hypothesis of C6 comes from: a buffer is created with the
    shape of its target and a capacity above every registered lag, and a
    refresh with a value of that shape keeps both. *)
Lemma LengthDelay_init_well_shaped {elt : Type} (zero : elt)
    (v : list elt) (m : nat) (initial : option (list elt)) :
  (forall fill, initial = Some fill -> length fill = length v) ->
  Delay.well_shaped (length v) (Delay.LengthDelay_init zero v m initial).
Proof.
  intros Hfill. split; cbn.
  - rewrite length_replicate. lia.
  - constructor; [done|]. apply Forall_replicate.
    destruct initial as [fill|]; cbn; [by apply Hfill|].
    unfold Delay.zeros_like. by rewrite length_replicate.
Qed.

Lemma LengthDelay_update_well_shaped {elt : Type} (n : nat) (v : list elt)
    (d : Delay.LengthDelay) :
  length v = n -> 0 < Delay.num_delay_step d ->
  Delay.well_shaped n d -> Delay.well_shaped n (Delay.LengthDelay_update v d).
Proof.
  intros Hv Hpos [Hlen Hall]. split; cbn.
  - rewrite length_take. cbn. lia.
  - apply Forall_take. by constructor.
Qed.

Lemma max_step_bounds (x : nat) (a : list nat) (lag : nat) :
  lag ∈ x :: a -> lag <= foldr Nat.max x a.
Proof.
  induction a as [|y a IH]; cbn.
  - intros ->%list_elem_of_singleton. done.
  - intros Hin. apply elem_of_cons in Hin as [->|Hin].
    + etrans; [apply IH; left|]. lia.
    + apply elem_of_cons in Hin as [->|Hin]; [lia|].
      etrans; [apply IH; by right|]. lia.
Qed.

Lemma well_shaped_covers {elt : Type} (d : @Delay.LengthDelay elt)
    (s : list nat) (m : nat) :
  Delay.well_shaped (length s) d ->
  Delay.max_step (Delay.Heter s) = inr m ->
  m < Delay.num_delay_step d ->
  forall k lag, s !! k = Some lag ->
                is_Some (Delay.data d !! lag ≫= (.!! k)).
Proof.
  intros [Hlen Hall] Hmax Hcap k lag Hk.
  destruct s as [|x a]; [done|]. cbn in Hmax. simplify_eq.
  assert (lag <= foldr Nat.max x a) as Hle.
  { apply max_step_bounds. by eapply list_elem_of_lookup_2. }
  destruct (lookup_lt_is_Some_2 (Delay.data d) lag) as [slice Hslice]; [lia|].
  rewrite Hslice. cbn. apply lookup_lt_is_Some_2.
  rewrite (proj1 (Forall_forall _ _) Hall slice)
    by (by eapply list_elem_of_lookup_2).
  by eapply lookup_lt_Some.
Qed.

(** Registering a fresh key with a per-element step array creates a buffer
    of the shape of the target whose capacity is above every lag, so that
    the read of C6 is defined from the registration on. *)
Lemma register_heter_covers {elt : Type} (zero : elt) (rt : Delay.Runtime)
    (self key : string) (T : nat) (s : list nat)
    (initial : option (list elt)) :
  Delay.global_delay_data rt !! key = None ->
  Collector.contains (Delay.local_delay_vars rt self) key = false ->
  s ≠ [] ->
  length (Delay.variables rt T) = length s ->
  (forall fill, initial = Some fill -> length fill = length s) ->
  let out := Delay.register_delay zero self key (Delay.ArgArray true s)
               (Delay.Variable_ T) initial rt in
  out.1 = inr (Some (Delay.Heter s)) /\
  Delay.global_delay_data out.2 !! key
  = Some (Some (Delay.allocated rt), Delay.Variable_ T) /\
  forall k lag, s !! k = Some lag ->
    is_Some (Delay.data (Delay.delays out.2 (Delay.allocated rt)) !! lag
             ≫= (.!! k)).
Proof.
  intros Hfresh Hlocal Hs Hlen Hfill. cbn zeta.
  unfold Delay.register_delay, bind, gets, Delay.lift. cbn.
  rewrite decide_False by (intros Hne; by apply Hne).
  destruct s as [|x a]; [done|]. cbn. rewrite Hfresh. cbn.
  unfold Delay.create_delay, bind, gets, modify, Delay.alloc_delay,
    Delay.local_setitem, Collector.set. cbn. rewrite Hlocal. cbn.
  split_and!; [done | apply lookup_insert_eq |].
  intros k lag Hk. rewrite fn_lookup_insert.
  apply (well_shaped_covers _ (x :: a) (foldr Nat.max x a));
    [| done | cbn; lia | done].
  rewrite <- Hlen. apply LengthDelay_init_well_shaped.
  intros fill Hi. rewrite (Hfill fill Hi). done.
Qed.

(** ** Containers *)

Lemma for_each_ext {S A} (xs : list A) (f g : A -> Py S unit) (s : S) :
  Forall (fun x => forall s', f x s' = g x s') xs ->
  for_each xs f s = for_each xs g s.
Proof.
  intros Hall. revert s. induction Hall as [|x xs Hx _ IH]; intros s; [done|].
  simpl. unfold bind. rewrite Hx. destruct (g x s) as [[e|[]] s1]; [done|].
  apply IH.
Qed.

Lemma for_each_omap {S A B} (xs : list A) (f : A -> option B)
    (g : B -> Py S unit) (s : S) :
  for_each (omap f xs) g s =
  for_each xs (fun x => match f x with Some y => g y | None => ret tt end) s.
Proof.
  revert s. induction xs as [|x xs IH]; intros s; [done|].
  simpl. destruct (f x) as [y|]; simpl; unfold bind.
  - destruct (g y s) as [[e|[]] s1]; [done|]. apply IH.
  - simpl. apply IH.
Qed.

Lemma for_each_flat_map {S A B} (xs : list A) (f : A -> list B)
    (g : B -> Py S unit) (s : S) :
  for_each (flat_map f xs) g s = for_each xs (fun x => for_each (f x) g) s.
Proof.
  revert s. induction xs as [|x xs IH]; intros s; [done|].
  simpl. rewrite for_each_app. unfold bind.
  destruct (for_each (f x) g s) as [[e|[]] s1]; [done|]. apply IH.
Qed.

(** A loop with a turn that raises from every state raises. *)
Lemma for_each_raises {S A} (xs : list A) (body : A -> Py S unit) (x : A) (s : S) :
  x ∈ xs ->
  (forall s1, exists e, (body x s1).1 = inl e) ->
  exists e, (for_each xs body s).1 = inl e.
Proof.
  intros Hin Hbad. apply list_elem_of_split in Hin as (l1 & l2 & ->).
  rewrite for_each_app.
  destruct (for_each l1 body s) as [[e|[]] s1]; [by exists e|].
  simpl. unfold bind. destruct (Hbad s1) as [e He].
  destruct (body x s1) as [[e'|[]] s2]; simplify_eq/=. by exists e.
Qed.

(** Binding a list of names one after the other: with no name bound twice
    all bindings are appended, and otherwise the construction stops at a
    conflict. *)
Lemma setitems_run (bs c : list (string * Container.pyval)) :
  (NoDup (c.*1 ++ bs.*1) ->
   for_each bs (fun kv => Container.setitem kv.1 kv.2) c = (inr tt, c ++ bs)) /\
  (NoDup c.*1 -> ~ NoDup (c.*1 ++ bs.*1) ->
   exists k c',
     for_each bs (fun kv => Container.setitem kv.1 kv.2) c
     = (inl (ValueError ("Name " +:+ k +:+ " conflicts.")), c') /\
     k ∈ bs.*1).
Proof.
  revert c. induction bs as [|[k v] bs IH]; intros c.
  - cbn. rewrite !app_nil_r. split; [reflexivity | intros Hc Hdup; done].
  - cbn [for_each fmap list_fmap fst]. unfold bind, Container.setitem at 1 3.
    unfold Collector.set, Collector.contains, Collector.keys. cbn [fst snd].
    assert (c.*1 ++ k :: bs.*1 = (c ++ [(k, v)]).*1 ++ bs.*1) as Hshift.
    { rewrite fmap_app. cbn. by rewrite <- app_assoc. }
    case_bool_decide as Hk.
    + split.
      * intros Hnd. apply NoDup_app in Hnd as (_ & Hnd & _).
        exfalso. apply (Hnd k Hk). left.
      * intros _ _. exists k, c. split; [done | left].
    + destruct (IH (c ++ [(k, v)])) as [IHok IHdup]. split.
      * intros Hnd. rewrite Hshift in Hnd. rewrite (IHok Hnd).
        by rewrite <- app_assoc.
      * intros Hc Hdup. rewrite Hshift in Hdup.
        destruct IHdup as (k' & c' & Hrun & Hin); [|done|].
        { rewrite fmap_app. apply NoDup_app. split_and!; [done| |].
          - intros x Hx ->%list_elem_of_singleton. done.
          - apply NoDup_singleton. }
        exists k', c'. split; [done | by right].
Qed.

(** On accepted sub-systems the constructor does nothing but bind. *)
Lemma add_module_bindings (module : Container.pyval)
    (c : list (string * Container.pyval)) :
  Container.accepted module ->
  Container.add_module module c
  = for_each (Container.bindings_of module)
      (fun kv => Container.setitem kv.1 kv.2) c.
Proof.
  destruct module as [n|members|items|]; cbn; intros Hacc.
  - unfold bind. by destruct (Container.setitem _ _ c) as [[e|[]] c1].
  - rewrite for_each_omap. apply for_each_ext.
    eapply Forall_impl; [exact Hacc|]. by intros [] ?.
  - apply for_each_ext. rewrite Forall_fmap in Hacc.
    eapply Forall_impl; [exact Hacc|]. intros [k []] ?; done.
  - done.
Qed.

Lemma init_bindings (ds_tuple : list Container.pyval)
    (ds_dict : list (string * Container.pyval)) :
  Forall Container.accepted ds_tuple ->
  Forall Container.is_node ds_dict.*2 ->
  Container.init ds_tuple ds_dict
  = match for_each (Container.bindings ds_tuple ds_dict)
            (fun kv => Container.setitem kv.1 kv.2) []
    with
    | (inl e, _) => inl e
    | (inr _, c) => inr c
    end.
Proof.
  intros Htuple Hdict. unfold Container.init, Container.bindings.
  rewrite for_each_app, for_each_flat_map. unfold bind.
  rewrite (for_each_ext ds_tuple Container.add_module
             (fun x => for_each (Container.bindings_of x)
                         (fun kv => Container.setitem kv.1 kv.2))).
  2:{ eapply Forall_impl; [exact Htuple|]. intros m Hm c.
      by apply add_module_bindings. }
  destruct (for_each ds_tuple _ []) as [[e|[]] c1]; [done|].
  rewrite (for_each_ext ds_dict Container.add_keyword
             (fun kv => Container.setitem kv.1 kv.2)); [done|].
  rewrite Forall_fmap in Hdict. eapply Forall_impl; [exact Hdict|].
  intros [k []] ?; done.
Qed.

(** A construction from accepted sub-systems with distinct names succeeds,
    and its child map holds the bindings in order. *)
Lemma init_distinct_names (ds_tuple : list Container.pyval)
    (ds_dict : list (string * Container.pyval)) :
  Forall Container.accepted ds_tuple ->
  Forall Container.is_node ds_dict.*2 ->
  NoDup (Container.bound_names ds_tuple ds_dict) ->
  Container.init ds_tuple ds_dict = inr (Container.bindings ds_tuple ds_dict).
Proof.
  intros Htuple Hdict Hnd. rewrite init_bindings by done.
  by rewrite (proj1 (setitems_run (Container.bindings ds_tuple ds_dict) []) Hnd).
Qed.

(** C2. When the sub-systems given to a constructor, all of accepted types,
    bind some name twice, whether the name comes from a positional node, a
    member of a positional list or tuple, a key of a positional dictionary
    or a keyword, the construction raises the name-conflict error for a name
    among those given, and no container is built. *)
Theorem init_rejects_duplicate_names (ds_tuple : list Container.pyval)
    (ds_dict : list (string * Container.pyval)) :
  Forall Container.accepted ds_tuple ->
  Forall Container.is_node ds_dict.*2 ->
  ~ NoDup (Container.bound_names ds_tuple ds_dict) ->
  exists k,
    Container.init ds_tuple ds_dict
    = inl (ValueError ("Name " +:+ k +:+ " conflicts.")) /\
    k ∈ Container.bound_names ds_tuple ds_dict.
Proof.
  intros Htuple Hdict Hdup. rewrite init_bindings by done.
  destruct (proj2 (setitems_run (Container.bindings ds_tuple ds_dict) []))
    as (k & c' & Hrun & Hin); [apply NoDup_nil_2 | done |].
  exists k. by rewrite Hrun.
Qed.

Lemma init_rejects_duplicate_names_witness :
  exists k,
    Container.init [Container.VNode Sample.a]
      [("a", Container.VNode Sample.a')]
    = inl (ValueError ("Name " +:+ k +:+ " conflicts.")) /\
    k ∈ Container.bound_names [Container.VNode Sample.a]
          [("a", Container.VNode Sample.a')].
Proof.
  apply init_rejects_duplicate_names.
  - repeat constructor.
  - repeat constructor.
  - intros Hnd. apply NoDup_cons in Hnd as [Hfresh _]. apply Hfresh. left.
Defined.

(** The three ways of C2 on the sample nodes. *)
Example init_duplicate_samples :
  Container.init [Container.VNode Sample.a; Container.VNode Sample.a'] []
  = inl (ValueError "Name a conflicts.") /\
  Container.init [Container.VList [Container.VNode Sample.a;
                                   Container.VNode Sample.a']] []
  = inl (ValueError "Name a conflicts.") /\
  Container.init [Container.VDict [("a", Container.VNode Sample.b)]]
    [("a", Container.VNode Sample.a')]
  = inl (ValueError "Name a conflicts.").
Proof. split_and!; reflexivity. Qed.

(** C8, as stated, fails: a positional list of the nodes [a] and [b] is
    bound twice, once under each member's name, and the value under the name
    of [a] is the list, not the node. *)
Lemma init_list_binds_the_list :
  let group := Container.VList [Container.VNode Sample.a;
                                Container.VNode Sample.b] in
  Container.init [group] [] = inr [("a", group); ("b", group)] /\
  ~ Container.grouped_under_one_name
      [Container.VNode Sample.a; Container.VNode Sample.b]
      [("a", group); ("b", group)] /\
  ~ Container.members_are_children
      [Container.VNode Sample.a; Container.VNode Sample.b]
      [("a", group); ("b", group)].
Proof.
  cbn zeta. split_and!; [reflexivity | |].
  - intros [g Hg].
    pose proof (proj1 (Hg "a") eq_refl) as Ha.
    pose proof (proj1 (Hg "b") eq_refl) as Hb. congruence.
  - intros Hch. specialize (Hch Sample.a (list_elem_of_here _ _)).
    discriminate Hch.
Qed.

(** Every exception of a construction is a [ValueError]. *)
Lemma for_each_raises_only {S A} (P : exn -> Prop) (xs : list A)
    (body : A -> Py S unit) :
  (forall x s e, x ∈ xs -> (body x s).1 = inl e -> P e) ->
  forall s e, (for_each xs body s).1 = inl e -> P e.
Proof.
  induction xs as [|x xs IH]; intros Hbody s e; cbn; [done|].
  unfold bind. destruct (body x s) as [[e'|[]] s1] eqn:Hx; cbn.
  - intros [= ->]. apply (Hbody x s); [left | by rewrite Hx].
  - apply IH. intros y s' e' Hy. apply Hbody. by right.
Qed.

Lemma setitem_raises_only (key : string) (value : Container.pyval)
    (c : list (string * Container.pyval)) (e : exn) :
  (Container.setitem key value c).1 = inl e -> is_ValueError e.
Proof.
  unfold Container.setitem, Collector.set.
  destruct (Collector.contains c key); cbn; [|done].
  intros [= <-]. by eexists.
Qed.

Lemma init_raises_only (ds_tuple : list Container.pyval)
    (ds_dict : list (string * Container.pyval)) (e : exn) :
  Container.init ds_tuple ds_dict = inl e -> is_ValueError e.
Proof.
  unfold Container.init, bind.
  destruct (for_each ds_tuple Container.add_module []) as [[e1|[]] c1] eqn:H1.
  - intros [= <-].
    apply (for_each_raises_only is_ValueError ds_tuple Container.add_module)
      with (s := []); [|by rewrite H1].
    intros module c e' _. destruct module as [n|members|items|]; cbn.
    + apply setitem_raises_only.
    + apply for_each_raises_only. intros m c' e'' _.
      destruct m; cbn; try (intros [= <-]; by eexists).
      apply setitem_raises_only.
    + apply for_each_raises_only. intros [k v] c' e'' _.
      destruct v; cbn; try (intros [= <-]; by eexists).
      apply setitem_raises_only.
    + intros [= <-]. by eexists.
  - destruct (for_each ds_dict Container.add_keyword c1) as [[e2|[]] c2] eqn:H2;
      [|done].
    intros [= <-].
    apply (for_each_raises_only is_ValueError ds_dict Container.add_keyword)
      with (s := c1); [|by rewrite H2].
    intros [k v] c' e'' _. destruct v; cbn; try (intros [= <-]; by eexists).
    apply setitem_raises_only.
Qed.

(** C8, amended. A construction from accepted sub-systems with distinct
    names succeeds, and the names of its child map are the names bound, in
    order: a positional list or tuple contributes one entry per member,
    under the member's own name. A positional object that is no node, list,
    tuple or dictionary makes the construction raise a [ValueError], and so
    does a list or tuple with a member that is no node, and a dictionary
    with a value that is no node. *)
Theorem init_list_binds_member_names :
  (forall ds_tuple ds_dict,
      Forall Container.accepted ds_tuple ->
      Forall Container.is_node ds_dict.*2 ->
      NoDup (Container.bound_names ds_tuple ds_dict) ->
      exists c,
        Container.init ds_tuple ds_dict = inr c /\
        Collector.keys c = Container.bound_names ds_tuple ds_dict /\
        forall members n,
          Container.VList members ∈ ds_tuple ->
          Container.VNode n ∈ members ->
          name n ∈ Collector.keys c) /\
  (forall before after ds_dict,
      exists msg,
        Container.init (before ++ Container.VOther :: after) ds_dict
        = inl (ValueError msg)) /\
  (forall before members after ds_dict m,
      m ∈ members -> ~ Container.is_node m ->
      exists msg,
        Container.init (before ++ Container.VList members :: after) ds_dict
        = inl (ValueError msg)) /\
  (forall before items after ds_dict kv,
      kv ∈ items -> ~ Container.is_node kv.2 ->
      exists msg,
        Container.init (before ++ Container.VDict items :: after) ds_dict
        = inl (ValueError msg)).
Proof.
  assert (forall ds_tuple ds_dict bad,
             bad ∈ ds_tuple ->
             (forall c, exists e, (Container.add_module bad c).1 = inl e) ->
             exists msg, Container.init ds_tuple ds_dict = inl (ValueError msg))
    as Hbad.
  { intros ds_tuple ds_dict bad Hin Hraise.
    assert (exists e, Container.init ds_tuple ds_dict = inl e) as [e He].
    { unfold Container.init, bind.
      destruct (for_each_raises ds_tuple Container.add_module bad [] Hin Hraise)
        as [e He].
      destruct (for_each ds_tuple Container.add_module []) as [[e'|[]] c1];
        simplify_eq/=. by exists e. }
    destruct (init_raises_only _ _ _ He) as [msg ->]. by exists msg. }
  split_and!.
  - intros ds_tuple ds_dict Htuple Hdict Hnd.
    exists (Container.bindings ds_tuple ds_dict).
    split_and!; [by apply init_distinct_names | done |].
    intros members n Hlist Hmem. unfold Collector.keys, Container.bindings.
    rewrite fmap_app. apply elem_of_app. left.
    apply (list_elem_of_fmap_2 fst _ (name n, Container.VList members)).
    apply list_elem_of_In, in_flat_map. exists (Container.VList members).
    split; [by apply list_elem_of_In|]. apply list_elem_of_In.
    cbn. apply list_elem_of_omap. by exists (Container.VNode n).
  - intros before after ds_dict.
    apply (Hbad _ _ Container.VOther); [apply elem_of_app; right; left|].
    intros c. by eexists.
  - intros before members after ds_dict m Hm Hnot.
    apply (Hbad _ _ (Container.VList members)); [apply elem_of_app; right; left|].
    intros c. cbn. apply (for_each_raises members _ m c Hm).
    intros c1. destruct m; [by destruct Hnot | by eexists ..].
  - intros before items after ds_dict kv Hkv Hnot.
    apply (Hbad _ _ (Container.VDict items)); [apply elem_of_app; right; left|].
    intros c. cbn. apply (for_each_raises items _ kv c Hkv).
    intros c1. destruct kv as [k []]; [by destruct Hnot | by eexists ..].
Qed.

Lemma init_list_binds_member_names_witness :
  exists c,
    Container.init [Container.VList [Container.VNode Sample.a;
                                     Container.VNode Sample.b]] [] = inr c /\
    Collector.keys c = ["a"; "b"].
Proof.
  destruct (proj1 init_list_binds_member_names
              [Container.VList [Container.VNode Sample.a;
                                Container.VNode Sample.b]] [])
    as (c & Hrun & Hkeys & _).
  - repeat constructor.
  - constructor.
  - cbn. apply NoDup_cons. split; [by intros ?%list_elem_of_singleton|].
    apply NoDup_singleton.
  - exists c. split; [exact Hrun | exact Hkeys].
Defined.

(** ** Sequential pipelines *)

(** Access by name: a child is found under its name by item access and by
    attribute access. *)
Lemma getitem_by_name (c : list (string * Container.pyval)) (s : string)
    (v : Container.pyval) :
  Collector.get c s = Some v ->
  Sequential.getitem c (Sequential.KStr s) = inr (Sequential.Child v) /\
  Sequential.getattr c s = Some v.
Proof. intros Hget. unfold Sequential.getattr. cbn. by rewrite Hget. Qed.

(** Access by slice on the sample pipeline. *)
Example getitem_slice_sample :
  Container.init [Container.VNode Sample.a; Container.VNode Sample.b;
                  Container.VNode Sample.c] [] = inr Sample.pipeline /\
  Sequential.getitem Sample.pipeline (Sequential.KSlice (Some 1%Z) None None)
  = inr (Sequential.Pipeline [("b", Container.VNode Sample.b);
                              ("c", Container.VNode Sample.c)]) /\
  Sequential.getitem Sample.pipeline
    (Sequential.KSlice None None (Some (-2)%Z))
  = inr (Sequential.Pipeline [("c", Container.VNode Sample.c);
                              ("a", Container.VNode Sample.a)]).
Proof. split_and!; reflexivity. Qed.

(** C9, where the code departs from it: for every pipeline, a tuple or list
    key whose first element is an integer raises [KeyError], and an integer
    key raises [TypeError]; on the sample pipeline the key [[0, 1]] does not
    select the children at positions 0 and 1. *)
Theorem getitem_integer_keys_raise :
  (forall c i rest,
      Sequential.getitem c (Sequential.KSeq (Sequential.KInt i :: rest))
      = inl (KeyError "We excepted a tuple/list of int, but we got <class 'int'>")) /\
  (forall c i,
      Sequential.getitem c (Sequential.KInt i)
      = inl (TypeError "'dict_values' object is not subscriptable")) /\
  ~ Sequential.selects_children Sample.pipeline [0; 1]
      (Sequential.getitem Sample.pipeline
         (Sequential.KSeq [Sequential.KInt 0; Sequential.KInt 1])).
Proof.
  split_and!; [done | done |].
  intros (chosen & Hrun & _). discriminate Hrun.
Qed.

(** ** Conductance-based neuron groups *)

Section CondNeuGroupProps.

Context {R Ch : Type}.
Variables (zero milli : R).
Variables (add mul div : R -> R -> R).
Variables (ltb geb : R -> R -> bool).
Variable ch_update : gmap string R -> list R -> Ch -> Ch.
Variable ch_current : Ch -> list R -> list R.
Variable integral : (list R -> R -> list R) -> list R -> R -> R -> list R.

(** The loop over the channels updates every channel child once, with the
    voltage the group holds during the loop, and leaves the other children
    alone. *)
Lemma update_channels_run (tdi : gmap string R)
    (todo finished : list (string * @CondNeuGroup.child Ch))
    (g : @CondNeuGroup.group R Ch) :
  for_each (CondNeuGroup.channels_from (length finished) todo)
    (CondNeuGroup.update_channel ch_update tdi)
    (CondNeuGroup.set_children (finished ++ todo) g)
  = (inr tt,
     CondNeuGroup.set_children
       (finished ++
        ((fun kv => (kv.1, CondNeuGroup.call_update ch_update tdi
                             (CondNeuGroup.V g) kv.2)) <$> todo)) g).
Proof.
  revert finished. induction todo as [|[k c] todo IH]; intros finished; [done|].
  destruct c as [st|]; cbn [CondNeuGroup.channels_from snd fmap list_fmap fst].
  - cbn [for_each]. unfold bind, CondNeuGroup.update_channel at 1, modify.
    cbn [CondNeuGroup.set_children CondNeuGroup.children CondNeuGroup.V].
    rewrite <- (Nat.add_0_r (length finished)) at 2.
    rewrite alter_app_r. cbn [alter list_alter fst snd].
    specialize (IH (finished ++
      [(k, CondNeuGroup.call_update ch_update tdi (CondNeuGroup.V g)
             (CondNeuGroup.ChannelNode st))])).
    rewrite length_app, Nat.add_1_r, <- !app_assoc in IH. exact IH.
  - specialize (IH (finished ++ [(k, CondNeuGroup.OtherNode)])).
    rewrite length_app, Nat.add_1_r, <- !app_assoc in IH. exact IH.
Qed.

(** C5. With [t] and [dt] in the shared context, one call to [update] ends
    in the state in which: the voltage is the integral taken from the state
    before the call (its voltage, its input and its channels); every channel
    child has been updated once with the voltage before the call; the spike
    flag of an element says that the new voltage is at or above [V_th] and
    the old one below it; the input is zero at every element; nothing else
    has changed. *)
Theorem cond_update_one_tick (tdi : gmap string R) (t dt : R)
    (g : @CondNeuGroup.group R Ch) :
  tdi !! "t" = Some t ->
  tdi !! "dt" = Some dt ->
  let V_new :=
    integral (CondNeuGroup.derivative milli add mul div ch_current g)
      (CondNeuGroup.V g) t dt in
  CondNeuGroup.update zero milli add mul div ltb geb ch_update ch_current
    integral tdi g
  = (inr tt,
     {| CondNeuGroup.V := V_new;
        CondNeuGroup.input :=
          replicate (length (CondNeuGroup.input g)) zero;
        CondNeuGroup.spike :=
          zip_with (fun vn vo => geb vn (CondNeuGroup.V_th g)
                                 && ltb vo (CondNeuGroup.V_th g))
            V_new (CondNeuGroup.V g);
        CondNeuGroup.C := CondNeuGroup.C g;
        CondNeuGroup.A := CondNeuGroup.A g;
        CondNeuGroup.V_th := CondNeuGroup.V_th g;
        CondNeuGroup.children :=
          (fun kv => (kv.1, CondNeuGroup.call_update ch_update tdi
                              (CondNeuGroup.V g) kv.2))
          <$> CondNeuGroup.children g |}).
Proof.
  intros Ht Hdt. cbn zeta.
  unfold CondNeuGroup.update, bind, CondNeuGroup.shared_get, gets.
  rewrite Ht, Hdt. cbn [ret]. unfold CondNeuGroup.channels.
  pose proof (update_channels_run tdi (CondNeuGroup.children g) [] g) as Hloop.
  cbn [length app] in Hloop.
  replace (CondNeuGroup.set_children (CondNeuGroup.children g) g) with g
    in Hloop by (by destruct g).
  rewrite Hloop. reflexivity.
Qed.

End CondNeuGroupProps.

(** ** Networks *)

(** A list is in the order of a ranking when an element of lower rank is
    always at an earlier position than one of higher rank. *)
Lemma ranked_app {A} (rank : A -> nat) (l1 l2 : list A) :
  (forall i j x y, l1 !! i = Some x -> l1 !! j = Some y ->
                   rank x < rank y -> i < j) ->
  (forall i j x y, l2 !! i = Some x -> l2 !! j = Some y ->
                   rank x < rank y -> i < j) ->
  (forall x y, x ∈ l1 -> y ∈ l2 -> rank x <= rank y) ->
  forall i j x y, (l1 ++ l2) !! i = Some x -> (l1 ++ l2) !! j = Some y ->
                  rank x < rank y -> i < j.
Proof.
  intros H1 H2 H12 i j x y Hi Hj Hlt.
  apply lookup_app_Some in Hi as [Hi|[Hil Hi]];
    apply lookup_app_Some in Hj as [Hj|[Hjl Hj]].
  - by eapply H1.
  - apply lookup_lt_Some in Hi. lia.
  - exfalso. apply list_elem_of_lookup_2 in Hi, Hj.
    specialize (H12 y x Hj Hi). lia.
  - specialize (H2 _ _ x y Hi Hj Hlt). lia.
Qed.

Lemma ranked_constant {A} (rank : A -> nat) (l : list A) (r : nat) :
  (forall x, x ∈ l -> rank x = r) ->
  forall i j x y, l !! i = Some x -> l !! j = Some y ->
                  rank x < rank y -> i < j.
Proof.
  intros Hr i j x y Hi Hj Hlt. apply list_elem_of_lookup_2 in Hi, Hj.
  rewrite (Hr x Hi), (Hr y Hj) in Hlt. lia.
Qed.

(** In a collector, which holds a name once, a name has one value. *)
Lemma collector_functional {V} (c : list (string * V)) (k : string) (v1 v2 : V) :
  NoDup (Collector.keys c) -> (k, v1) ∈ c -> (k, v2) ∈ c -> v1 = v2.
Proof.
  unfold Collector.keys. induction c as [|[k' v'] c IH]; cbn; intros Hnd H1 H2.
  - by apply elem_of_nil in H1.
  - apply NoDup_cons in Hnd as [Hfresh Hnd].
    apply elem_of_cons in H1 as [H1|H1]; apply elem_of_cons in H2 as [H2|H2];
      simplify_eq.
    + done.
    + exfalso. apply Hfresh. by apply (list_elem_of_fmap_2 fst _ (k', v2)).
    + exfalso. apply Hfresh. by apply (list_elem_of_fmap_2 fst _ (k', v1)).
    + by apply IH.
Qed.

Lemma values_filter {V} (P : V -> Prop)
    (Hpair : forall kv : string * V, Decision (P kv.2))
    (Hvalue : forall v, Decision (P v)) (c : list (string * V)) :
  Collector.values (@filter _ _ _ (fun kv => P kv.2) Hpair c)
  = @filter _ _ _ P Hvalue (Collector.values c).
Proof.
  unfold Collector.values. induction c as [|[k v] c IH]; [done|].
  rewrite (fmap_cons snd), !filter_cons. cbn [snd].
  repeat case_decide; try done.
  rewrite fmap_cons. cbn [snd]. by rewrite IH.
Qed.

Lemma subset_dyn_keys (c : list (string * Network.base_object)) :
  Collector.keys (Network.subset_dyn c) `sublist_of` Collector.keys c.
Proof.
  unfold Collector.keys. induction c as [|[k [n|i]] c IH]; cbn.
  - done.
  - by apply sublist_skip.
  - by apply sublist_cons.
Qed.

Lemma unique_from_keys (seen : list nat) (c : list (string * DynamicalSystem)) :
  Collector.keys (Network.unique_from seen c) `sublist_of` Collector.keys c.
Proof.
  unfold Collector.keys. revert seen.
  induction c as [|[k n] c IH]; intros seen; cbn; [done|].
  destruct (decide (ident n ∈ seen)); cbn.
  - by apply sublist_cons.
  - by apply sublist_skip.
Qed.

(** The nodes left when those of a class are taken away by name are the
    nodes of the other classes. *)
Lemma sub_subset (k : node_class) (c c' : list (string * DynamicalSystem)) :
  NoDup (Collector.keys c) -> c' ⊆ c ->
  Network.sub c' (Network.subset k c) = filter (fun kv => cls kv.2 ≠ k) c'.
Proof.
  intros Hnd Hsub. unfold Network.sub, Network.subset.
  induction c' as [|kv c' IH]; [done|].
  rewrite !filter_cons.
  assert (kv.1 ∉ Collector.keys (filter (fun kv0 => cls kv0.2 = k) c)
          <-> cls kv.2 ≠ k) as Hiff.
  { split.
    - intros Hnot Hcls. apply Hnot. unfold Collector.keys.
      apply (list_elem_of_fmap_2 fst _ kv). apply list_elem_of_filter.
      split; [done|]. apply Hsub. left.
    - intros Hcls Hin. unfold Collector.keys in Hin.
      apply list_elem_of_fmap in Hin as ([k' n'] & Hk & Hin').
      apply list_elem_of_filter in Hin' as [Hcls' Hin']. cbn in *.
      destruct kv as [k0 n0]. cbn in *. subst k0.
      assert (n0 = n') as ->; [|done].
      eapply collector_functional; [exact Hnd| |exact Hin'].
      apply Hsub. left. }
  assert (c' ⊆ c) as Hsub' by (intros x Hx; apply Hsub; by right).
  destruct (decide (kv.1 ∉ _)) as [Hy|Hn], (decide (cls kv.2 ≠ k)) as [Hy'|Hn'];
    [by rewrite IH | tauto | tauto | by apply IH].
Qed.

Section NetworkProps.

Context {elt Sh : Type}.
Variable node_update :
  DynamicalSystem -> Sh -> @Delay.Runtime elt -> exn + (nat -> list elt).

(** An update of a child changes the values of variables and nothing else
    of the shared objects. *)
Lemma after_updates_registry (shared : Sh) (ns : list DynamicalSystem)
    (rt : @Delay.Runtime elt) :
  let rt' := foldl (Network.after_update node_update shared) rt ns in
  Delay.global_delay_data rt' = Delay.global_delay_data rt /\
  Delay.local_delay_vars rt' = Delay.local_delay_vars rt /\
  Delay.delays rt' = Delay.delays rt.
Proof.
  cbn zeta. revert rt. induction ns as [|n ns IH]; intros rt; [done|].
  cbn [foldl]. destruct (IH (Network.after_update node_update shared rt n))
    as (-> & -> & ->).
  unfold Network.after_update. by destruct (node_update n shared rt).
Qed.

(** A refresh changes delay buffers and nothing else. *)
Lemma after_refreshes_registry (keys : list string) (rt : @Delay.Runtime elt) :
  let rt' := foldl Network.after_refresh rt keys in
  Delay.global_delay_data rt' = Delay.global_delay_data rt /\
  Delay.local_delay_vars rt' = Delay.local_delay_vars rt /\
  Delay.variables rt' = Delay.variables rt.
Proof.
  cbn zeta. revert rt. induction keys as [|key keys IH]; intros rt; [done|].
  cbn [foldl]. destruct (IH (Network.after_refresh rt key)) as (-> & -> & ->).
  unfold Network.after_refresh.
  by destruct (Delay.global_delay_data rt !! key) as [[[ref|] t]|].
Qed.

Lemma target_value_after_refreshes (keys : list string)
    (rt : @Delay.Runtime elt) (key : string) :
  Network.target_value (foldl Network.after_refresh rt keys) key
  = Network.target_value rt key.
Proof.
  destruct (after_refreshes_registry keys rt) as (Hg & _ & Hv).
  unfold Network.target_value. rewrite Hg.
  destruct (Delay.global_delay_data rt !! key) as [[d [ref|v]]|]; cbn;
    [by rewrite Hv | done | done].
Qed.

(** The calls of one group: every child of the group is called, in order,
    each call being observed before the child runs. *)
Lemma call_updates_run (shared : Sh) (ns : list DynamicalSystem)
    (w : @Network.World elt) :
  (forall n, n ∈ ns -> forall rt, exists vars, node_update n shared rt = inr vars) ->
  for_each ns (Network.call_update node_update shared) w
  = (inr tt,
     {| Network.runtime :=
          foldl (Network.after_update node_update shared) (Network.runtime w) ns;
        Network.probes := Network.probes w ++ (Network.Updated <$> ns) |}).
Proof.
  intros Hok. revert w. induction ns as [|n ns IH]; intros w.
  - cbn. rewrite app_nil_r. by destruct w.
  - cbn [for_each foldl fmap list_fmap].
    unfold bind at 1, Network.call_update at 1, bind, Network.log, modify.
    cbn [Network.runtime Network.probes].
    unfold Network.after_update at 2.
    destruct (Hok n (list_elem_of_here _ _) (Network.runtime w)) as [vars ->].
    rewrite IH by (intros m Hm; apply Hok; by right).
    cbn [Network.runtime Network.probes]. by rewrite <- app_assoc.
Qed.

(** The refreshes of a list of registered keys: each buffer takes the
    value its target holds. *)
Lemma refreshes_run (keys : list string) (w : @Network.World elt) :
  (forall key, key ∈ keys ->
     exists ref t,
       Delay.global_delay_data (Network.runtime w) !! key = Some (Some ref, t)) ->
  for_each keys Network.refresh w
  = (inr tt,
     {| Network.runtime := foldl Network.after_refresh (Network.runtime w) keys;
        Network.probes :=
          Network.probes w ++
          ((fun key => Network.Refreshed key
                         (Network.target_value (Network.runtime w) key))
           <$> keys) |}).
Proof.
  revert w. induction keys as [|key keys IH]; intros w Hreg.
  - cbn. rewrite app_nil_r. by destruct w.
  - destruct (Hreg key) as (ref & t & Hkey); [left|].
    cbn [for_each foldl fmap list_fmap].
    unfold bind at 1, Network.refresh at 1, bind, gets, Network.log, modify.
    rewrite Hkey. cbn [Network.runtime Network.probes].
    rewrite IH.
    + cbn [Network.runtime Network.probes].
      assert (Network.after_refresh (Network.runtime w) key
              = Delay.set_delay ref
                  (Delay.LengthDelay_update
                     (Delay.value_of (Network.runtime w) t)
                     (Delay.delays (Network.runtime w) ref))
                  (Network.runtime w)) as ->.
      { unfold Network.after_refresh. by rewrite Hkey. }
      assert (Network.target_value (Network.runtime w) key
              = Delay.value_of (Network.runtime w) t) as ->.
      { unfold Network.target_value. by rewrite Hkey. }
      rewrite <- app_assoc. cbn [app]. reflexivity.
    + intros key' Hin. cbn. apply Hreg. by right.
Qed.

Lemma update_local_delays_run (nodes : list DynamicalSystem)
    (w : @Network.World elt) :
  let keys :=
    flat_map (fun n => Collector.keys
                         (Delay.local_delay_vars (Network.runtime w) (name n)))
      nodes in
  (forall key, key ∈ keys ->
     exists ref t,
       Delay.global_delay_data (Network.runtime w) !! key = Some (Some ref, t)) ->
  Network.update_local_delays nodes w
  = (inr tt,
     {| Network.runtime := foldl Network.after_refresh (Network.runtime w) keys;
        Network.probes :=
          Network.probes w ++
          ((fun key => Network.Refreshed key
                         (Network.target_value (Network.runtime w) key))
           <$> keys) |}).
Proof.
  cbn zeta. unfold Network.update_local_delays.
  revert w. induction nodes as [|n nodes IH]; intros w Hreg.
  - cbn. rewrite app_nil_r. by destruct w.
  - cbn [for_each flat_map]. unfold bind at 1, bind at 1, gets.
    rewrite refreshes_run.
    2:{ intros key Hin. apply Hreg. cbn. apply elem_of_app. by left. }
    set (own := Collector.keys
                  (Delay.local_delay_vars (Network.runtime w) (name n))).
    destruct (after_refreshes_registry own (Network.runtime w))
      as (Hg & Hl & _).
    rewrite IH; cbn [Network.runtime Network.probes]; rewrite Hl.
    + rewrite foldl_app, fmap_app, <- app_assoc. do 4 f_equal.
      apply list_fmap_ext. intros _ key _.
      by rewrite target_value_after_refreshes.
    + intros key Hin. rewrite Hg. apply Hreg. cbn. apply elem_of_app.
      by right.
Qed.

End NetworkProps.

Section NetworkOrder.

Context {elt Sh : Type}.
Variable node_update :
  DynamicalSystem -> Sh -> @Delay.Runtime elt -> exn + (nat -> list elt).

(** The three groups of a network, as lists of nodes. *)
Lemma network_groups (children : list (string * Network.base_object)) :
  NoDup (Collector.keys children) ->
  let gathered := Network.unique (Network.subset_dyn children) in
  let nodes := Collector.values gathered in
  Collector.values (Network.subset SynConn gathered)
  = filter (fun n => cls n = SynConn) nodes /\
  Collector.values (Network.subset NeuGroup gathered)
  = filter (fun n => cls n = NeuGroup) nodes /\
  Collector.values
    (Network.sub (Network.sub gathered (Network.subset NeuGroup gathered))
       (Network.subset SynConn gathered))
  = filter (fun n => cls n ≠ SynConn /\ cls n ≠ NeuGroup) nodes.
Proof.
  intros Hnd. cbn zeta.
  set (gathered := Network.unique (Network.subset_dyn children)).
  assert (NoDup (Collector.keys gathered)) as Hgathered.
  { eapply sublist_NoDup; [exact Hnd|].
    etrans; [apply unique_from_keys | apply subset_dyn_keys]. }
  split_and!.
  - unfold Network.subset. apply (values_filter (fun n => cls n = SynConn) _ _).
  - unfold Network.subset. apply (values_filter (fun n => cls n = NeuGroup) _ _).
  - rewrite (sub_subset NeuGroup gathered gathered) by done.
    rewrite (sub_subset SynConn gathered).
    + rewrite list_filter_filter.
      apply (values_filter (fun n => cls n ≠ SynConn /\ cls n ≠ NeuGroup) _ _).
    + done.
    + intros kv Hkv. by apply list_elem_of_filter in Hkv as [_ ?].
Qed.

(** C1. The children gathered by name, none of whose updates raises, and
    every local delay key of a child bound to a buffer in the registry: one
    call of [update] returns, and what the probes have seen of it is, in
    order, the call of every synapse child, the call of every neuron-group
    child, the call of every other child, then one refresh per local delay
    key of each child, with the value that the target of the key holds once
    all the children have updated; the buffers end refreshed with those
    values. In what is seen, an event of an earlier step stands before every
    event of a later step. *)
Theorem network_update_order (children : list (string * Network.base_object))
    (shared : Sh) (rest : list Sh) (w : @Network.World elt) :
  NoDup (Collector.keys children) ->
  let nodes :=
    Collector.values (Network.unique (Network.subset_dyn children)) in
  (forall n, n ∈ nodes ->
     forall rt, exists vars, node_update n shared rt = inr vars) ->
  let syn := filter (fun n => cls n = SynConn) nodes in
  let neu := filter (fun n => cls n = NeuGroup) nodes in
  let oth := filter (fun n => cls n ≠ SynConn /\ cls n ≠ NeuGroup) nodes in
  let keys :=
    flat_map (fun n => Collector.keys
                         (Delay.local_delay_vars (Network.runtime w) (name n)))
      nodes in
  (forall key, key ∈ keys ->
     exists ref t,
       Delay.global_delay_data (Network.runtime w) !! key = Some (Some ref, t)) ->
  let updated :=
    foldl (Network.after_update node_update shared) (Network.runtime w)
      (syn ++ neu ++ oth) in
  let observed :=
    (Network.Updated <$> syn ++ neu ++ oth) ++
    ((fun key => Network.Refreshed key (Network.target_value updated key))
     <$> keys) in
  Network.update node_update children (shared :: rest) w
  = (inr tt,
     {| Network.runtime := foldl Network.after_refresh updated keys;
        Network.probes := Network.probes w ++ observed |}) /\
  (forall i j e1 e2,
      observed !! i = Some e1 -> observed !! j = Some e2 ->
      Network.phase e1 < Network.phase e2 -> i < j).
Proof.
  intros Hnd. cbn zeta. intros Hok Hreg.
  destruct (network_groups children Hnd) as (Hsyn & Hneu & Hoth).
  cbn zeta in Hsyn, Hneu, Hoth.
  set (nodes := Collector.values
                  (Network.unique (Network.subset_dyn children))) in *.
  set (syn := filter (fun n => cls n = SynConn) nodes) in *.
  set (neu := filter (fun n => cls n = NeuGroup) nodes) in *.
  set (oth := filter (fun n => cls n ≠ SynConn /\ cls n ≠ NeuGroup) nodes) in *.
  split.
  - unfold Network.update. cbn [lookup list_lookup].
    rewrite Hsyn, Hneu, Hoth. fold nodes. unfold bind.
    rewrite !call_updates_run
      by (intros n Hn; apply Hok; by apply list_elem_of_filter in Hn as [_ ?]).
    cbn [Network.runtime Network.probes].
    rewrite <- !foldl_app.
    destruct (after_updates_registry node_update shared (syn ++ neu ++ oth)
                (Network.runtime w)) as (Hg & Hl & _).
    rewrite update_local_delays_run; cbn [Network.runtime Network.probes];
      rewrite Hl.
    + by rewrite <- !app_assoc, !fmap_app, <- !app_assoc.
    + intros key Hkey. rewrite Hg. by apply Hreg.
  - rewrite !fmap_app, <- !app_assoc.
    apply ranked_app; [| apply ranked_app; [| apply ranked_app |] |].
    + apply (ranked_constant _ _ 0). intros e He.
      apply list_elem_of_fmap in He as (n & -> & Hn).
      apply list_elem_of_filter in Hn as [Hc _]. cbn. by rewrite Hc.
    + apply (ranked_constant _ _ 1). intros e He.
      apply list_elem_of_fmap in He as (n & -> & Hn).
      apply list_elem_of_filter in Hn as [Hc _]. cbn. by rewrite Hc.
    + apply (ranked_constant _ _ 2). intros e He.
      apply list_elem_of_fmap in He as (n & -> & Hn).
      apply list_elem_of_filter in Hn as [[H1 H2] _]. cbn.
      by destruct (cls n).
    + apply (ranked_constant _ _ 3). intros e He.
      by apply list_elem_of_fmap in He as (key & -> & _).
    + intros x y Hx Hy.
      apply list_elem_of_fmap in Hx as (n & -> & Hn).
      apply list_elem_of_fmap in Hy as (key & -> & _).
      cbn. destruct (cls n); lia.
    + intros x y Hx Hy.
      apply list_elem_of_fmap in Hx as (n & -> & Hn).
      apply list_elem_of_filter in Hn as [Hc _]. cbn. rewrite Hc.
      apply elem_of_app in Hy as [Hy|Hy].
      * apply list_elem_of_fmap in Hy as (m & -> & Hm).
        apply list_elem_of_filter in Hm as [[H1 H2] _]. cbn.
        destruct (cls m); done || lia.
      * apply list_elem_of_fmap in Hy as (key & -> & _). cbn. lia.
    + intros x y Hx Hy.
      apply list_elem_of_fmap in Hx as (n & -> & Hn).
      apply list_elem_of_filter in Hn as [Hc _]. cbn. rewrite Hc. lia.
Qed.

End NetworkOrder.

Lemma network_update_order_witness :
  exists w',
    Network.update Sample.node_update Sample.children [tt] Sample.world
    = (inr tt, w') /\
    Network.probes w'
    = [Network.Updated Sample.s; Network.Updated Sample.a;
       Network.Updated Sample.c; Network.Refreshed "a.V" [1%Z]] /\
    Delay.data (Delay.delays (Network.runtime w') 0) = [[1%Z]; [1%Z; 2%Z]].
Proof.
  destruct (network_update_order Sample.node_update Sample.children tt []
              Sample.world) as [Hrun _].
  - apply (bool_decide_unpack _). vm_compute. exact I.
  - intros n _ rt. eexists. reflexivity.
  - intros key Hkey. vm_compute in Hkey.
    apply list_elem_of_singleton in Hkey as ->. exists 0, (Delay.Variable_ 1).
    reflexivity.
  - eexists. split; [exact Hrun|]. split; reflexivity.
Defined.

Lemma cond_update_one_tick_witness :
  let out := CondNeuGroup.update 0%Z 1%Z Z.add Z.mul Z.div Z.ltb Z.geb
               Sample.ch_update Sample.ch_current Sample.euler
               Sample.tdi Sample.group in
  out.1 = inr tt /\
  CondNeuGroup.V out.2 = [999%Z; 6%Z] /\
  CondNeuGroup.spike out.2 = [true; false] /\
  CondNeuGroup.input out.2 = [0%Z; 0%Z] /\
  CondNeuGroup.children out.2
  = [("INa", CondNeuGroup.ChannelNode [(-2)%Z; 5%Z]);
     ("probe", CondNeuGroup.OtherNode)].
Proof.
  cbn zeta.
  rewrite (cond_update_one_tick 0%Z 1%Z Z.add Z.mul Z.div Z.ltb Z.geb
             Sample.ch_update Sample.ch_current Sample.euler
             Sample.tdi 0%Z 1%Z Sample.group); [|reflexivity|reflexivity].
  split_and!; reflexivity.
Defined.

(** * Further properties of the code *)

(** ** The shared context: saving, loading, clearing *)

Lemma store_kwargs_other (kwargs : list (string * Context.pyobj))
    (d : gmap Context.pyobj Context.pyobj) (k : Context.pyobj) :
  (forall s, k = Context.PyStr s -> s ∉ kwargs.*1) ->
  foldl (fun d kv => <[Context.PyStr kv.1 := kv.2]> d) d kwargs !! k = d !! k.
Proof.
  revert d. induction kwargs as [|[s v] kwargs IH]; intros d Hk; [done|].
  cbn [foldl]. rewrite IH.
  - cbn. apply lookup_insert_ne. intros <-. apply (Hk s eq_refl). left.
  - intros s' -> Hin. apply (Hk s' eq_refl). by right.
Qed.

(** X1. What [save] has stored, [load] returns: after a call of [save] that
    returned, every keyword is loaded with its value, the key ["dt"]
    included, whatever default is passed; and a single positional pair is
    loaded with its value unless a keyword of the same call has the same
    name. *)
Theorem save_then_load (get_dt : Context.pyobj) :
  (forall args kwargs d d' k v default,
      Context.save args kwargs d = (inr tt, d') ->
      NoDup kwargs.*1 -> (k, v) ∈ kwargs ->
      Share.load get_dt (Context.PyStr k) default d' = (inr v, d')) /\
  (forall k v kwargs d default,
      (forall s, k = Context.PyStr s -> s ∉ kwargs.*1) ->
      exists d',
        Context.save [k; v] kwargs d = (inr tt, d') /\
        Share.load get_dt k default d' = (inr v, d')).
Proof.
  assert (forall (d' : gmap Context.pyobj Context.pyobj) k v default,
             d' !! k = Some v -> Share.load get_dt k default d' = (inr v, d'))
    as Hload.
  { intros d' k v default Hk. unfold Share.load, Share.dt.
    case_decide as Hdt; [subst k|]; by rewrite Hk. }
  split.
  - intros args kwargs d d' k v default Hrun Hnd Hin. apply Hload.
    unfold Context.save in Hrun.
    destruct (decide (length args mod 2 = 0)); [|done].
    unfold bind in Hrun.
    destruct (for_each _ (Context.save_pair args) d) as [[err|[]] d1]; [done|].
    destruct (save_kwargs_lookup kwargs d1 k v Hnd Hin) as [_ Hk].
    by rewrite Hrun in Hk.
  - intros k v kwargs d default Hfree. eexists. split.
    + unfold Context.save, Context.save_kwargs. cbn. unfold bind. cbn.
      apply (for_each_modify kwargs
               (fun kv d => <[Context.PyStr kv.1 := kv.2]> d)).
    + apply Hload. rewrite store_kwargs_other by done. apply lookup_insert_eq.
Qed.

Lemma save_then_load_witness :
  Share.load (Context.PyInt 1) (Context.PyStr "dt") Context.PyNone
    (Context.save [] [("t", Context.PyInt 3); ("dt", Context.PyInt 2)] ∅).2
  = (inr (Context.PyInt 2),
     (Context.save [] [("t", Context.PyInt 3); ("dt", Context.PyInt 2)] ∅).2).
Proof.
  apply (proj1 (save_then_load (Context.PyInt 1)) []
           [("t", Context.PyInt 3); ("dt", Context.PyInt 2)] ∅).
  - vm_compute. reflexivity.
  - apply (bool_decide_unpack _). vm_compute. exact I.
  - apply list_elem_of_further, list_elem_of_here.
Defined.

(** X2. [load] never changes the store. It raises exactly when the key is
    not ["dt"], is not stored, and no default other than [None] is given;
    the error is a [KeyError]. For ["dt"] it returns the stored step, or the
    default step of the process when none is stored, and ignores the
    default passed. A stored [None] is returned as a value. *)
Theorem load_raises_iff (get_dt key value : Context.pyobj)
    (d : gmap Context.pyobj Context.pyobj) :
  (Share.load get_dt key value d).2 = d /\
  ((exists e, (Share.load get_dt key value d).1 = inl e) <->
   key ≠ Context.PyStr "dt" /\ d !! key = None /\ value = Context.PyNone) /\
  (forall e, (Share.load get_dt key value d).1 = inl e ->
             exists msg, e = KeyError msg) /\
  (Share.load get_dt (Context.PyStr "dt") value d).1
  = inr (default get_dt (d !! Context.PyStr "dt")) /\
  (key ≠ Context.PyStr "dt" -> d !! key = Some Context.PyNone ->
   (Share.load get_dt key value d).1 = inr Context.PyNone).
Proof.
  unfold Share.load, Share.dt. split_and!.
  - repeat (case_decide || case_match); done.
  - split.
    + intros [e He]. repeat (case_decide || case_match); naive_solver.
    + intros (Hdt & Hk & ->). rewrite decide_False by done. rewrite Hk.
      rewrite decide_True by done. by eexists.
  - intros e He. repeat (case_decide || case_match); simplify_eq/=.
    by eexists.
  - rewrite decide_True by done. cbn. by destruct (d !! Context.PyStr "dt").
  - intros Hdt Hk. rewrite decide_False by done. by rewrite Hk.
Qed.

Lemma load_raises_iff_witness :
  (Share.load (Context.PyInt 1) (Context.PyStr "i") (Context.PyInt 0)
     {[ Context.PyStr "i" := Context.PyNone ]}).1 = inr Context.PyNone.
Proof.
  apply (proj2 (proj2 (proj2 (proj2
    (load_raises_iff (Context.PyInt 1) (Context.PyStr "i") (Context.PyInt 0)
       {[ Context.PyStr "i" := Context.PyNone ]}))))).
  - discriminate.
  - reflexivity.
Defined.

Lemma remove_all_lookup (args : list Context.pyobj)
    (d : gmap Context.pyobj Context.pyobj) (k : Context.pyobj) :
  foldl (fun d a => delete a d) d args !! k
  = if decide (k ∈ args) then None else d !! k.
Proof.
  revert d. induction args as [|a args IH]; intros d; cbn [foldl].
  - rewrite decide_False; [done | by intros ?%elem_of_nil].
  - rewrite IH. destruct (decide (k ∈ args)) as [Hin|Hnin].
    + rewrite decide_True; [done | by right].
    + destruct (decide (k = a)) as [->|Hne].
      * rewrite decide_True by left. apply lookup_delete_eq.
      * rewrite decide_False by (intros [?|?]%elem_of_cons; done).
        by apply lookup_delete_ne.
Qed.

Lemma pops_run (args : list Context.pyobj)
    (d : gmap Context.pyobj Context.pyobj) :
  NoDup args -> (forall a, a ∈ args -> is_Some (d !! a)) ->
  for_each args Share.pop d = (inr tt, foldl (fun d a => delete a d) d args).
Proof.
  revert d. induction args as [|a args IH]; intros d Hnd Hin; [done|].
  apply NoDup_cons in Hnd as [Hfresh Hnd].
  cbn [for_each foldl]. unfold bind, Share.pop at 1.
  destruct (Hin a) as [v ->]; [left|]. apply IH; [done|].
  intros b Hb. rewrite lookup_delete_ne by (by intros ->).
  apply Hin. by right.
Qed.

(** X3. [clear_shargs] with names that are stored and distinct removes
    exactly those names and keeps every other entry. At the first name that
    is not stored, or that an earlier name of the call has already removed,
    it raises [KeyError] for that name, and the names before it stay
    removed. Without names it empties the store. *)
Theorem clear_shargs_removes :
  (forall args (d : gmap Context.pyobj Context.pyobj),
      args ≠ [] -> NoDup args -> (forall a, a ∈ args -> is_Some (d !! a)) ->
      exists d',
        Share.clear_shargs args d = (inr tt, d') /\
        forall k, d' !! k = if decide (k ∈ args) then None else d !! k) /\
  (forall before a after (d : gmap Context.pyobj Context.pyobj),
      NoDup before -> (forall b, b ∈ before -> is_Some (d !! b)) ->
      a ∈ before \/ d !! a = None ->
      exists d',
        Share.clear_shargs (before ++ a :: after) d
        = (inl (KeyError (Share.key_text a)), d') /\
        forall k, d' !! k = if decide (k ∈ before) then None else d !! k) /\
  (forall d : gmap Context.pyobj Context.pyobj,
      Share.clear_shargs [] d = (inr tt, ∅)).
Proof.
  split_and!.
  - intros args d Hne Hnd Hin. eexists. split.
    + unfold Share.clear_shargs. rewrite decide_True by (destruct args; [done|cbn; lia]).
      by apply pops_run.
    + apply remove_all_lookup.
  - intros before a after d Hnd Hin Ha. eexists. split.
    + unfold Share.clear_shargs.
      rewrite decide_True by (rewrite length_app; cbn; lia).
      rewrite for_each_app, pops_run by done. cbn [for_each].
      unfold bind, Share.pop at 1. rewrite remove_all_lookup.
      destruct (decide (a ∈ before)) as [|Hnin]; [done|].
      destruct Ha as [? | ->]; done.
    + apply remove_all_lookup.
  - done.
Qed.

Lemma clear_shargs_removes_witness :
  exists d',
    Share.clear_shargs [Context.PyStr "t"; Context.PyStr "i"]
      {[ Context.PyStr "t" := Context.PyInt 3 ]}
    = (inl (KeyError "i"), d') /\
    d' !! Context.PyStr "t" = None.
Proof.
  destruct (proj1 (proj2 clear_shargs_removes) [Context.PyStr "t"]
              (Context.PyStr "i") []
              ({[ Context.PyStr "t" := Context.PyInt 3 ]}
                 : gmap Context.pyobj Context.pyobj))
    as (d' & Hrun & Hlook).
  - apply NoDup_singleton.
  - intros b ->%list_elem_of_singleton. by eexists.
  - right. reflexivity.
  - exists d'. split; [exact Hrun|]. rewrite Hlook. reflexivity.
Defined.

(** ** Delay registration: first registration, failures, withdrawal *)





(** X6. Registering a key without steps withdraws its buffer from the
    registry, whatever was registered before: the buffer objects and the
    local delay variables of every node stay as they were, but from then on
    a read of the key with delay steps raises [TypeError] for every reader,
    steps and indices, and a refresh of the key raises [AttributeError]. *)
Theorem register_none_withdraws_buffer {elt : Type} (zero : elt)
    (rt : Delay.Runtime) (self key : string) (target : Delay.target)
    (initial : option (list elt)) :
  let out := Delay.register_delay zero self key Delay.ArgNone target initial
               rt in
  out.1 = inr None /\
  Delay.delays out.2 = Delay.delays rt /\
  Delay.local_delay_vars out.2 = Delay.local_delay_vars rt /\
  (forall reader st indices,
     Delay.get_delay_data out.2 reader key (Some st) indices
     = inl (TypeError "'NoneType' object is not callable")) /\
  (forall probes,
     (Network.refresh key {| Network.runtime := out.2;
                             Network.probes := probes |}).1
     = inl (AttributeError "'NoneType' object has no attribute 'update'")).
Proof.
  cbn zeta. unfold Delay.register_delay, bind, gets, Delay.lift. cbn.
  split_and!; [done | done | done | |].
  - intros reader st indices. unfold Delay.get_delay_data. cbn.
    by rewrite lookup_insert_eq.
  - intros probes. unfold Network.refresh, bind, gets. cbn.
    by rewrite lookup_insert_eq.
Qed.

(** ** Refreshing the delay buffers of a node *)

(** Refreshes of keys whose buffers are other objects leave a buffer as it
    is. *)
Lemma after_refreshes_other {elt : Type} (keys : list string)
    (rt : @Delay.Runtime elt) (ref : nat) :
  (forall k r t, k ∈ keys ->
     Delay.global_delay_data rt !! k = Some (Some r, t) -> r ≠ ref) ->
  Delay.delays (foldl Network.after_refresh rt keys) ref = Delay.delays rt ref.
Proof.
  revert rt. induction keys as [|k keys IH]; intros rt Hother; [done|].
  cbn [foldl].
  destruct (after_refreshes_registry [k] rt) as (Hg & _ & _). cbn in Hg.
  rewrite IH.
  - unfold Network.after_refresh.
    destruct (Delay.global_delay_data rt !! k) as [[[r|] t]|] eqn:Hk;
      [|done|done].
    cbn. apply fn_lookup_insert_ne. eapply Hother; [left | done].
  - intros k' r t Hin. rewrite Hg. apply Hother. by right.
Qed.

(** X7. One pass of [update_local_delays] over a node ages the history of
    each of its buffers by one tick. The node's local delay keys are bound
    to buffers in the registry, distinct keys to distinct buffers. Then for
    a key of the node, a read at lag 0 after the pass returns the value the
    target holds, and a read at lag [k + 1] inside the capacity returns what
    the read at lag [k] returned before the pass. *)
Theorem refresh_ages_history {elt : Type} (w : @Network.World elt)
    (n : DynamicalSystem) (key : string) (ref : nat) (t : Delay.target) :
  let rt := Network.runtime w in
  let keys := Collector.keys (Delay.local_delay_vars rt (name n)) in
  NoDup keys ->
  (forall k, k ∈ keys ->
     exists r t', Delay.global_delay_data rt !! k = Some (Some r, t')) ->
  (forall k r t', k ∈ keys -> k ≠ key ->
     Delay.global_delay_data rt !! k = Some (Some r, t') -> r ≠ ref) ->
  key ∈ keys ->
  Delay.global_delay_data rt !! key = Some (Some ref, t) ->
  0 < Delay.num_delay_step (Delay.delays rt ref) ->
  let out := Network.update_local_delays [n] w in
  out.1 = inr tt /\
  (forall reader,
     Delay.get_delay_data (Network.runtime out.2) reader key
       (Some (Delay.Homo 0)) []
     = inr (Delay.value_of rt t)) /\
  (forall reader lag slice,
     S lag < Delay.num_delay_step (Delay.delays rt ref) ->
     Delay.get_delay_data rt reader key (Some (Delay.Homo lag)) [] = inr slice ->
     Delay.get_delay_data (Network.runtime out.2) reader key
       (Some (Delay.Homo (S lag))) []
     = inr slice).
Proof.
  cbn zeta. intros Hnd Hreg Hinj Hkey Hbound Hcap.
  rewrite update_local_delays_run.
  2:{ cbn. rewrite app_nil_r. exact Hreg. }
  cbn [fst snd Network.runtime flat_map]. rewrite app_nil_r.
  set (rt := Network.runtime w) in *.
  set (keys := Collector.keys (Delay.local_delay_vars rt (name n))) in *.
  destruct (after_refreshes_registry keys rt) as (Hg & _ & _).
  cbn zeta in Hg.
  assert (Delay.delays (foldl Network.after_refresh rt keys) ref
          = Delay.LengthDelay_update (Delay.value_of rt t) (Delay.delays rt ref))
    as Hbuf.
  { apply list_elem_of_split in Hkey as (l1 & l2 & Hsplit).
    rewrite Hsplit in Hnd, Hinj, Hreg |- *.
    apply NoDup_app in Hnd as (_ & Hnot1 & Hnd2).
    apply NoDup_cons in Hnd2 as [Hnot2 _].
    rewrite foldl_app. cbn [foldl].
    destruct (after_refreshes_registry l1 rt) as (Hg1 & _ & Hv1).
    cbn zeta in Hg1, Hv1.
    rewrite after_refreshes_other.
    - unfold Network.after_refresh at 1. rewrite Hg1, Hbound. cbn.
      rewrite fn_lookup_insert. f_equal.
      + destruct t; cbn; [by rewrite Hv1 | done].
      + apply after_refreshes_other. intros k r t' Hin Hk.
        apply (Hinj k r t'); [apply elem_of_app; by left| |done].
        intros ->. apply (Hnot1 key Hin). left.
    - intros k r t' Hin.
      destruct (after_refreshes_registry [key] (foldl Network.after_refresh rt l1))
        as (Hg2 & _ & _). cbn in Hg2. rewrite Hg2, Hg1.
      apply Hinj; [apply elem_of_app; right; by right|].
      by intros ->. }
  split_and!; [done | |].
  - intros reader. unfold Delay.get_delay_data. rewrite Hg, Hbound. cbn.
    rewrite Hbuf. cbn.
    destruct (Delay.num_delay_step (Delay.delays rt ref)); [lia|done].
  - intros reader lag slice Hlag. unfold Delay.get_delay_data.
    rewrite Hg, Hbound. cbn. rewrite Hbuf. cbn.
    rewrite lookup_take_lt by lia. done.
Qed.

Lemma refresh_ages_history_witness :
  Delay.get_delay_data
    (Network.runtime (Network.update_local_delays [Sample.a] Sample.world).2)
    "s" "a.V" (Some (Delay.Homo 0)) []
  = inr [1%Z; 2%Z].
Proof.
  destruct (refresh_ages_history Sample.world Sample.a "a.V" 0
              (Delay.Variable_ 1)) as (_ & Hnow & _).
  - apply (bool_decide_unpack _). vm_compute. exact I.
  - intros k Hk. vm_compute in Hk. apply list_elem_of_singleton in Hk as ->.
    exists 0, (Delay.Variable_ 1). reflexivity.
  - intros k r t' Hk Hne. vm_compute in Hk.
    by apply list_elem_of_singleton in Hk.
  - vm_compute. left.
  - reflexivity.
  - vm_compute. lia.
  - exact (Hnow "s").
Defined.

(** ** The end of a node *)






(** ** Networks and containers: who is called, and what a failure leaves *)

Lemma filter_three_way {A} (P Q : A -> Prop)
    `{!forall x, Decision (P x), !forall x, Decision (Q x)} (l : list A) :
  (forall x, P x -> Q x -> False) ->
  filter P l ++ filter Q l ++ filter (fun x => ~ P x /\ ~ Q x) l ≡ₚ l.
Proof.
  intros Hdisj. induction l as [|x l IH]; [done|].
  rewrite !filter_cons.
  destruct (decide (P x)) as [HP|HP], (decide (Q x)) as [HQ|HQ].
  - destruct (Hdisj x HP HQ).
  - rewrite decide_False by tauto. cbn. by rewrite IH.
  - rewrite decide_False by tauto.
    rewrite <- app_comm_cons, <- Permutation_middle. by rewrite IH.
  - rewrite decide_True by tauto.
    rewrite app_assoc, <- Permutation_middle, <- app_assoc. by rewrite IH.
Qed.

(** X9. The three groups that [Network.update] walks are a partition of
    the dynamical systems gathered: taken together, the synapse group, the
    neuron group and the group of the others hold every gathered node
    exactly as often as the collector does, so that no child is skipped and
    none is called twice. *)
Theorem network_groups_partition
    (children : list (string * @Network.base_object)) :
  NoDup (Collector.keys children) ->
  let gathered := Network.unique (Network.subset_dyn children) in
  Collector.values (Network.subset SynConn gathered) ++
  Collector.values (Network.subset NeuGroup gathered) ++
  Collector.values
    (Network.sub (Network.sub gathered (Network.subset NeuGroup gathered))
       (Network.subset SynConn gathered))
  ≡ₚ Collector.values gathered.
Proof.
  intros Hnd. cbn zeta.
  destruct (network_groups children Hnd) as (-> & -> & ->).
  apply (filter_three_way (fun n => cls n = SynConn) (fun n => cls n = NeuGroup)).
  intros n H1 H2. congruence.
Qed.

Lemma network_groups_partition_witness :
  Collector.values
    (Network.subset SynConn (Network.unique (Network.subset_dyn Sample.children)))
  ++ Collector.values
       (Network.subset NeuGroup (Network.unique (Network.subset_dyn Sample.children)))
  ++ Collector.values
       (Network.sub
          (Network.sub (Network.unique (Network.subset_dyn Sample.children))
             (Network.subset NeuGroup
                (Network.unique (Network.subset_dyn Sample.children))))
          (Network.subset SynConn
             (Network.unique (Network.subset_dyn Sample.children))))
  ≡ₚ Collector.values (Network.unique (Network.subset_dyn Sample.children)).
Proof.
  apply network_groups_partition.
  apply (bool_decide_unpack _). vm_compute. exact I.
Defined.

Section NetworkFailure.

Context {elt Sh : Type}.
Variable node_update :
  DynamicalSystem -> Sh -> @Delay.Runtime elt -> exn + (nat -> list elt).




End NetworkFailure.



(** ** Containers: what was bound is found *)





(** ** Sequential pipelines: slices and runs *)

Lemma slice_walk_forward {A} (l : list A) (fuel : nat) (i stop : Z) :
  (0 <= i)%Z -> (stop <= Z.of_nat (length l))%Z ->
  Z.to_nat (stop - i) <= fuel ->
  omap (fun j => l !! Z.to_nat j) (Sequential.slice_walk fuel i stop 1)
  = take (Z.to_nat (stop - i)) (drop (Z.to_nat i) l).
Proof.
  revert i. induction fuel as [|fuel IH]; intros i Hi Hstop Hfuel.
  - cbn. replace (Z.to_nat (stop - i)) with 0 by lia. done.
  - cbn [Sequential.slice_walk]. replace (0 <? 1)%Z with true by done.
    destruct (i <? stop)%Z eqn:Hlt.
    + apply Z.ltb_lt in Hlt.
      destruct (lookup_lt_is_Some_2 l (Z.to_nat i)) as [x Hx]; [lia|].
      cbn [omap list_omap]. rewrite Hx. rewrite IH by lia.
      replace (Z.to_nat (stop - i)) with (S (Z.to_nat (stop - (i + 1)))) by lia.
      rewrite (drop_S l x (Z.to_nat i) Hx). cbn [take].
      by replace (Z.to_nat (i + 1)) with (S (Z.to_nat i)) by lia.
    + apply Z.ltb_ge in Hlt.
      replace (Z.to_nat (stop - i)) with 0 by lia. done.
Qed.

(** A slice with the default step of a sequence: the elements from the
    position of the start up to the position of the stop. *)
Lemma py_slice_forward {A} (l : list A) (start stop : option Z) :
  let i := from_option (Feed.position (length l)) 0 start in
  let j := from_option (Feed.position (length l)) (length l) stop in
  Sequential.py_slice l start stop None = inr (take (j - i) (drop i l)).
Proof.
  cbn zeta. unfold Sequential.py_slice, Sequential.slice_bounds. cbn.
  set (len := Z.of_nat (length l)).
  set (first := match start with
                | Some x => Sequential.clamp_index len 0 len x
                | None => 0%Z
                end).
  set (last := match stop with
               | Some x => Sequential.clamp_index len 0 len x
               | None => len
               end).
  assert (forall x, 0 <= Sequential.clamp_index len 0 len x <= len)%Z as Hclamp.
  { intros x. unfold Sequential.clamp_index.
    destruct (x <? 0)%Z eqn:Hneg;
      [apply Z.ltb_lt in Hneg | apply Z.ltb_ge in Hneg]; unfold len; lia. }
  assert (0 <= first <= len)%Z as Hfirst
    by (unfold first; destruct start; [apply Hclamp | unfold len; lia]).
  assert (0 <= last <= len)%Z as Hlast
    by (unfold last; destruct stop; [apply Hclamp | unfold len; lia]).
  rewrite slice_walk_forward by (fold len; lia).
  do 2 f_equal.
  - unfold last, first, Feed.position. fold len.
    destruct start, stop; cbn; unfold len in *; lia.
  - unfold first, Feed.position. fold len. by destruct start.
Qed.

(** A slice of a well-formed pipeline with the default step is the pipeline
    of the children between the two positions. *)
Lemma getitem_slice_forward (c : list (string * Container.pyval))
    (start stop : option Z) :
  Feed.well_formed c ->
  let i := from_option (Feed.position (length c)) 0 start in
  let j := from_option (Feed.position (length c)) (length c) stop in
  Sequential.getitem c (Sequential.KSlice start stop None)
  = inr (Sequential.Pipeline (take (j - i) (drop i c))).
Proof.
  intros [Hnd Hnodes]. cbn zeta. cbn [Sequential.getitem].
  unfold Collector.keys, Collector.values in *.
  rewrite !py_slice_forward, !length_fmap.
  set (i := from_option (Feed.position (length c)) 0 start).
  set (j := from_option (Feed.position (length c)) (length c) stop).
  rewrite <- !fmap_drop, <- !fmap_take.
  unfold Sequential.of_pairs. rewrite zip_fst_snd.
  rewrite init_distinct_names.
  - unfold Container.bindings. cbn. by rewrite !app_nil_r.
  - constructor; [|constructor]. cbn. rewrite fmap_take, fmap_drop.
    by apply Forall_take, Forall_drop.
  - constructor.
  - unfold Container.bound_names, Container.bindings. cbn. rewrite !app_nil_r.
    rewrite fmap_take, fmap_drop.
    eapply sublist_NoDup; [exact Hnd|].
    etrans; [apply sublist_take | apply sublist_drop].
Qed.

(** X13. A slice with the default step of a well-formed pipeline never
    raises: it is the pipeline of the children from the position of its
    start (the first child when the start is omitted) up to the position of
    its stop (the end when omitted), in order. A bound between 0 and the
    length stands for itself, a negative bound counts from the end, and a
    bound outside the pipeline stands for the nearest end. *)
Theorem getitem_slice_selects (c : list (string * Container.pyval))
    (start stop : option Z) :
  Feed.well_formed c ->
  let i := from_option (Feed.position (length c)) 0 start in
  let j := from_option (Feed.position (length c)) (length c) stop in
  Sequential.getitem c (Sequential.KSlice start stop None)
  = inr (Sequential.Pipeline (take (j - i) (drop i c))) /\
  (forall x : nat, x <= length c ->
     Feed.position (length c) (Z.of_nat x) = x) /\
  (forall x : nat, 0 < x <= length c ->
     Feed.position (length c) (- Z.of_nat x) = length c - x) /\
  (forall x : Z, (Z.of_nat (length c) <= x)%Z ->
     Feed.position (length c) x = length c) /\
  (forall x : Z, (x <= - Z.of_nat (length c))%Z ->
     Feed.position (length c) x = 0).
Proof.
  intros Hwf. cbn zeta. split; [by apply getitem_slice_forward|].
  unfold Feed.position, Sequential.clamp_index.
  split_and!; intros x Hx; destruct (_ <? 0)%Z eqn:Hneg;
    try apply Z.ltb_lt in Hneg; try apply Z.ltb_ge in Hneg; lia.
Qed.

Lemma getitem_slice_selects_witness :
  Sequential.getitem Sample.pipeline
    (Sequential.KSlice (Some (-2)%Z) None None)
  = inr (Sequential.Pipeline [("b", Container.VNode Sample.b);
                              ("c", Container.VNode Sample.c)]).
Proof.
  assert (Feed.well_formed Sample.pipeline) as Hwf.
  { split; [|repeat constructor].
    apply (bool_decide_unpack _). vm_compute. exact I. }
  exact (proj1 (getitem_slice_selects Sample.pipeline (Some (-2)%Z) None Hwf)).
Defined.

Lemma feed_update_app {X Sh S} (node_call : Container.pyval -> Sh -> X -> Py S X)
    (c1 c2 : list (string * Container.pyval)) (sha : Sh) (x : X) (s : S) :
  Feed.update node_call (c1 ++ c2) sha x s
  = match Feed.update node_call c1 sha x s with
    | (inl e, s') => (inl e, s')
    | (inr y, s') => Feed.update node_call c2 sha y s'
    end.
Proof.
  revert x s. induction c1 as [|kv c1 IH]; intros x s; [done|].
  cbn [app Feed.update]. unfold bind.
  destruct (node_call kv.2 sha x s) as [[e|y] s1]; [done|]. apply IH.
Qed.

Lemma position_inside (len x : nat) :
  x <= len -> Feed.position len (Z.of_nat x) = x.
Proof.
  intros Hx. unfold Feed.position, Sequential.clamp_index.
  destruct (_ <? 0)%Z eqn:Hneg;
    [apply Z.ltb_lt in Hneg | apply Z.ltb_ge in Hneg]; lia.
Qed.

(** X14. Running the first [k] children of a well-formed pipeline and then
    the remaining ones is running the pipeline: the slices [[:k]] and [[k:]]
    are the pipelines of the first [k] and of the remaining children, and
    [update] on the whole pipeline returns, from every state of the nodes,
    what [update] on the second slice returns for the output of [update] on
    the first, an exception of the first part ending the run. *)
Theorem update_splits_at {X Sh S : Type}
    (node_call : Container.pyval -> Sh -> X -> Py S X)
    (c : list (string * Container.pyval)) (k : nat) :
  Feed.well_formed c -> k <= length c ->
  Sequential.getitem c (Sequential.KSlice None (Some (Z.of_nat k)) None)
  = inr (Sequential.Pipeline (take k c)) /\
  Sequential.getitem c (Sequential.KSlice (Some (Z.of_nat k)) None None)
  = inr (Sequential.Pipeline (drop k c)) /\
  forall sha x s,
    Feed.update node_call c sha x s
    = match Feed.update node_call (take k c) sha x s with
      | (inl e, s') => (inl e, s')
      | (inr y, s') => Feed.update node_call (drop k c) sha y s'
      end.
Proof.
  intros Hwf Hk. split_and!.
  - rewrite getitem_slice_forward by done. cbn [from_option].
    rewrite position_inside by done. by rewrite Nat.sub_0_r, drop_0.
  - rewrite getitem_slice_forward by done. cbn [from_option].
    rewrite position_inside by done.
    by rewrite take_ge by (rewrite length_drop; lia).
  - intros sha x s. rewrite <- feed_update_app. by rewrite take_drop.
Qed.

Lemma update_splits_at_witness :
  Sequential.getitem Sample.pipeline
    (Sequential.KSlice None (Some 1%Z) None)
  = inr (Sequential.Pipeline [("a", Container.VNode Sample.a)]).
Proof.
  assert (Feed.well_formed Sample.pipeline) as Hwf.
  { split; [|repeat constructor].
    apply (bool_decide_unpack _). vm_compute. exact I. }
  refine (proj1 (update_splits_at (X := nat) (Sh := unit) (S := unit)
                   (fun _ _ x => ret x) Sample.pipeline 1 Hwf _)).
  cbn. lia.
Defined.

Lemma slice_walk_backward {A} (l : list A) (fuel : nat) (i : Z) :
  (-1 <= i < Z.of_nat (length l))%Z ->
  Z.to_nat (i + 1) <= fuel ->
  omap (fun j => l !! Z.to_nat j) (Sequential.slice_walk fuel i (-1) (-1))
  = reverse (take (Z.to_nat (i + 1)) l).
Proof.
  revert i. induction fuel as [|fuel IH]; intros i Hi Hfuel.
  - cbn. replace (Z.to_nat (i + 1)) with 0 by lia. done.
  - cbn [Sequential.slice_walk]. replace (0 <? -1)%Z with false by done.
    destruct (-1 <? i)%Z eqn:Hlt.
    + apply Z.ltb_lt in Hlt.
      destruct (lookup_lt_is_Some_2 l (Z.to_nat i)) as [x Hx]; [lia|].
      cbn [omap list_omap]. rewrite Hx.
      replace (i + -1)%Z with (i - 1)%Z by lia. rewrite IH by lia.
      replace (Z.to_nat (i + 1)) with (S (Z.to_nat i)) by lia.
      rewrite (take_S_r l (Z.to_nat i) x Hx), reverse_app. cbn.
      by replace (Z.to_nat (i - 1 + 1)) with (Z.to_nat i) by lia.
    + apply Z.ltb_ge in Hlt.
      replace (Z.to_nat (i + 1)) with 0 by lia. done.
Qed.

Lemma py_slice_reversed {A} (l : list A) :
  Sequential.py_slice l None None (Some (-1)%Z) = inr (reverse l).
Proof.
  unfold Sequential.py_slice, Sequential.slice_bounds. cbn.
  destruct l as [|x l]; [done|].
  rewrite slice_walk_backward by (cbn [length]; lia).
  by rewrite take_ge by (cbn [length]; lia).
Qed.

(** X15. The slice [[::-1]] of a well-formed pipeline is the pipeline of
    the same children in the reverse order, under the same names. *)
Theorem getitem_reversed (c : list (string * Container.pyval)) :
  Feed.well_formed c ->
  Sequential.getitem c (Sequential.KSlice None None (Some (-1)%Z))
  = inr (Sequential.Pipeline (reverse c)).
Proof.
  intros [Hnd Hnodes]. cbn [Sequential.getitem].
  unfold Collector.keys, Collector.values in *.
  rewrite !py_slice_reversed, <- !fmap_reverse.
  unfold Sequential.of_pairs. rewrite zip_fst_snd, init_distinct_names.
  - unfold Container.bindings. cbn. by rewrite !app_nil_r.
  - constructor; [|constructor]. cbn. rewrite fmap_reverse.
    by apply Forall_reverse.
  - constructor.
  - unfold Container.bound_names, Container.bindings. cbn. rewrite !app_nil_r.
    rewrite fmap_reverse. by rewrite reverse_Permutation.
Qed.

Lemma getitem_reversed_witness :
  Sequential.getitem Sample.pipeline
    (Sequential.KSlice None None (Some (-1)%Z))
  = inr (Sequential.Pipeline [("c", Container.VNode Sample.c);
                              ("b", Container.VNode Sample.b);
                              ("a", Container.VNode Sample.a)]).
Proof.
  assert (Feed.well_formed Sample.pipeline) as Hwf.
  { split; [|repeat constructor].
    apply (bool_decide_unpack _). vm_compute. exact I. }
  exact (getitem_reversed Sample.pipeline Hwf).
Defined.

(** ** Components of a synapse *)

(** X16. A component accepts a master exactly when the master is a synaptic
    connection and the component has no master yet or has that very one; it
    then holds that master. Once it holds a master, no sequence of further
    registrations, accepted or refused, gives it another. *)
Theorem register_master_never_rebinds :
  (forall master current,
      (SynComponent.register_master master current).1 = inr tt <->
      cls master = SynConn /\ (current = None \/ current = Some master)) /\
  (forall master current,
      (SynComponent.register_master master current).1 = inr tt ->
      (SynComponent.register_master master current).2 = Some master) /\
  (forall m calls,
      foldl (fun current master =>
               (SynComponent.register_master master current).2)
        (Some m) calls
      = Some m).
Proof.
  split_and!.
  - intros master current. unfold SynComponent.register_master.
    destruct (decide (cls master ≠ SynConn)) as [Hc|Hc].
    + cbn. split; [done | intros [? _]; done].
    + apply dec_stable in Hc. destruct current as [m|].
      * destruct (decide (m ≠ master)) as [Hm|Hm]; cbn.
        -- split; [done | intros [_ [?|?]]; simplify_eq].
        -- apply dec_stable in Hm. subst m. by split; [split; [|right]|].
      * cbn. by split; [split; [|left]|].
  - intros master current. unfold SynComponent.register_master.
    repeat (case_decide || case_match); done.
  - intros m calls. induction calls as [|master calls IH]; [done|].
    cbn [foldl]. unfold SynComponent.register_master at 2.
    destruct (decide (cls master ≠ SynConn)); [exact IH|].
    destruct (decide (m ≠ master)) as [Hm|Hm]; [exact IH|].
    apply dec_stable in Hm. subst master. exact IH.
Qed.

Lemma register_master_never_rebinds_witness :
  (SynComponent.register_master Sample.s (Some Sample.s)).2 = Some Sample.s.
Proof.
  apply (proj1 (proj2 register_master_never_rebinds) Sample.s (Some Sample.s)).
  reflexivity.
Defined.

(** ** Resetting a network *)

Section ResetProps.

Context {elt : Type}.
Variable zero : elt.
Variable node_reset :
  DynamicalSystem -> option nat -> @Delay.Runtime elt -> exn + (nat -> list elt).

Lemma after_resets_registry (batch_size : option nat)
    (ns : list DynamicalSystem) (rt : @Delay.Runtime elt) :
  let rt' := foldl (Reset.after_reset node_reset batch_size) rt ns in
  Delay.global_delay_data rt' = Delay.global_delay_data rt /\
  Delay.local_delay_vars rt' = Delay.local_delay_vars rt /\
  Delay.delays rt' = Delay.delays rt.
Proof.
  cbn zeta. revert rt. induction ns as [|n ns IH]; intros rt; [done|].
  cbn [foldl]. destruct (IH (Reset.after_reset node_reset batch_size rt n))
    as (-> & -> & ->).
  unfold Reset.after_reset. by destruct (node_reset n batch_size rt).
Qed.

Lemma after_delay_resets_registry (keys : list string)
    (rt : @Delay.Runtime elt) :
  let rt' := foldl (Reset.after_delay_reset zero) rt keys in
  Delay.global_delay_data rt' = Delay.global_delay_data rt /\
  Delay.local_delay_vars rt' = Delay.local_delay_vars rt /\
  Delay.variables rt' = Delay.variables rt.
Proof.
  cbn zeta. revert rt. induction keys as [|key keys IH]; intros rt; [done|].
  cbn [foldl]. destruct (IH (Reset.after_delay_reset zero rt key))
    as (-> & -> & ->).
  unfold Reset.after_delay_reset.
  by destruct (Delay.global_delay_data rt !! key) as [[[ref|] t]|].
Qed.

Lemma target_value_after_delay_resets (keys : list string)
    (rt : @Delay.Runtime elt) (key : string) :
  Network.target_value (foldl (Reset.after_delay_reset zero) rt keys) key
  = Network.target_value rt key.
Proof.
  destruct (after_delay_resets_registry keys rt) as (Hg & _ & Hv).
  unfold Network.target_value. rewrite Hg.
  destruct (Delay.global_delay_data rt !! key) as [[d [ref|v]]|]; cbn;
    [by rewrite Hv | done | done].
Qed.

Lemma call_resets_run (batch_size : option nat) (ns : list DynamicalSystem)
    (w : @Reset.World elt) :
  (forall n, n ∈ ns ->
     forall rt, exists vars, node_reset n batch_size rt = inr vars) ->
  for_each ns (Reset.call_reset node_reset batch_size) w
  = (inr tt,
     {| Reset.runtime :=
          foldl (Reset.after_reset node_reset batch_size) (Reset.runtime w) ns;
        Reset.probes := Reset.probes w ++ (Reset.ResetCalled <$> ns) |}).
Proof.
  intros Hok. revert w. induction ns as [|n ns IH]; intros w.
  - cbn. rewrite app_nil_r. by destruct w.
  - cbn [for_each foldl fmap list_fmap].
    unfold bind at 1, Reset.call_reset at 1, bind, Reset.log, modify.
    cbn [Reset.runtime Reset.probes].
    unfold Reset.after_reset at 2.
    destruct (Hok n (list_elem_of_here _ _) (Reset.runtime w)) as [vars ->].
    rewrite IH by (intros m Hm; apply Hok; by right).
    cbn [Reset.runtime Reset.probes]. by rewrite <- app_assoc.
Qed.

Lemma reset_delays_run (keys : list string) (w : @Reset.World elt) :
  (forall key, key ∈ keys ->
     exists ref t,
       Delay.global_delay_data (Reset.runtime w) !! key = Some (Some ref, t)) ->
  for_each keys (Reset.reset_delay zero) w
  = (inr tt,
     {| Reset.runtime :=
          foldl (Reset.after_delay_reset zero) (Reset.runtime w) keys;
        Reset.probes :=
          Reset.probes w ++
          ((fun key => Reset.DelayReset key
                         (Network.target_value (Reset.runtime w) key))
           <$> keys) |}).
Proof.
  revert w. induction keys as [|key keys IH]; intros w Hreg.
  - cbn. rewrite app_nil_r. by destruct w.
  - destruct (Hreg key) as (ref & t & Hkey); [left|].
    cbn [for_each foldl fmap list_fmap].
    unfold bind at 1, Reset.reset_delay at 1, bind, gets, Reset.log, modify.
    rewrite Hkey. cbn [Reset.runtime Reset.probes].
    rewrite IH.
    + cbn [Reset.runtime Reset.probes].
      assert (Reset.after_delay_reset zero (Reset.runtime w) key
              = Delay.set_delay ref
                  (Delay.LengthDelay_reset zero
                     (Delay.value_of (Reset.runtime w) t)
                     (Delay.num_delay_step
                        (Delay.delays (Reset.runtime w) ref) - 1) None
                     (Delay.delays (Reset.runtime w) ref))
                  (Reset.runtime w)) as ->.
      { unfold Reset.after_delay_reset. by rewrite Hkey. }
      assert (Network.target_value (Reset.runtime w) key
              = Delay.value_of (Reset.runtime w) t) as ->.
      { unfold Network.target_value. by rewrite Hkey. }
      rewrite <- app_assoc. cbn [app]. reflexivity.
    + intros key' Hin. cbn. apply Hreg. by right.
Qed.

Lemma reset_local_delays_run (nodes : list DynamicalSystem)
    (w : @Reset.World elt) :
  let keys :=
    flat_map (fun n => Collector.keys
                         (Delay.local_delay_vars (Reset.runtime w) (name n)))
      nodes in
  (forall key, key ∈ keys ->
     exists ref t,
       Delay.global_delay_data (Reset.runtime w) !! key = Some (Some ref, t)) ->
  Reset.reset_local_delays zero nodes w
  = (inr tt,
     {| Reset.runtime :=
          foldl (Reset.after_delay_reset zero) (Reset.runtime w) keys;
        Reset.probes :=
          Reset.probes w ++
          ((fun key => Reset.DelayReset key
                         (Network.target_value (Reset.runtime w) key))
           <$> keys) |}).
Proof.
  cbn zeta. unfold Reset.reset_local_delays.
  revert w. induction nodes as [|n nodes IH]; intros w Hreg.
  - cbn. rewrite app_nil_r. by destruct w.
  - cbn [for_each flat_map]. unfold bind at 1, bind at 1, gets.
    rewrite reset_delays_run.
    2:{ intros key Hin. apply Hreg. cbn. apply elem_of_app. by left. }
    set (own := Collector.keys
                  (Delay.local_delay_vars (Reset.runtime w) (name n))).
    destruct (after_delay_resets_registry own (Reset.runtime w))
      as (Hg & Hl & _).
    rewrite IH; cbn [Reset.runtime Reset.probes]; rewrite Hl.
    + rewrite foldl_app, fmap_app, <- app_assoc. do 4 f_equal.
      apply list_fmap_ext. intros _ key _.
      by rewrite target_value_after_delay_resets.
    + intros key Hin. rewrite Hg. apply Hreg. cbn. apply elem_of_app.
      by right.
Qed.

(** X17. [Network.reset_state] resets the neuron groups first, then the
    synapses, then the other children, and the delay buffers last: with
    children that do not raise and local delay keys bound to buffers, the
    call returns and the probes have seen, in order, the reset of every
    neuron-group child, of every synapse child, of every other child, then
    one reset per local delay key of each child, with the value that the
    target of the key holds once all the children have been reset. *)
Theorem network_reset_order (children : list (string * @Network.base_object))
    (batch_size : option nat) (w : @Reset.World elt) :
  NoDup (Collector.keys children) ->
  let nodes :=
    Collector.values (Network.unique (Network.subset_dyn children)) in
  (forall n, n ∈ nodes ->
     forall rt, exists vars, node_reset n batch_size rt = inr vars) ->
  let neu := filter (fun n => cls n = NeuGroup) nodes in
  let syn := filter (fun n => cls n = SynConn) nodes in
  let oth := filter (fun n => cls n ≠ SynConn /\ cls n ≠ NeuGroup) nodes in
  let keys :=
    flat_map (fun n => Collector.keys
                         (Delay.local_delay_vars (Reset.runtime w) (name n)))
      nodes in
  (forall key, key ∈ keys ->
     exists ref t,
       Delay.global_delay_data (Reset.runtime w) !! key = Some (Some ref, t)) ->
  let after :=
    foldl (Reset.after_reset node_reset batch_size) (Reset.runtime w)
      (neu ++ syn ++ oth) in
  Reset.reset_state zero node_reset children batch_size w
  = (inr tt,
     {| Reset.runtime := foldl (Reset.after_delay_reset zero) after keys;
        Reset.probes :=
          Reset.probes w ++ (Reset.ResetCalled <$> neu ++ syn ++ oth) ++
          ((fun key => Reset.DelayReset key (Network.target_value after key))
           <$> keys) |}).
Proof.
  intros Hnd. cbn zeta. intros Hok Hreg.
  destruct (network_groups children Hnd) as (Hsyn & Hneu & Hoth).
  cbn zeta in Hsyn, Hneu, Hoth.
  unfold Reset.reset_state. rewrite Hsyn, Hneu, Hoth. unfold bind.
  rewrite !call_resets_run
    by (intros n Hn; apply Hok; by apply list_elem_of_filter in Hn as [_ ?]).
  cbn [Reset.runtime Reset.probes]. rewrite <- !foldl_app.
  set (nodes := Collector.values
                  (Network.unique (Network.subset_dyn children))) in *.
  match goal with
  | |- context [foldl (Reset.after_reset _ _) _ ?order] =>
      destruct (after_resets_registry batch_size order (Reset.runtime w))
        as (Hg & Hl & _)
  end.
  rewrite reset_local_delays_run; cbn [Reset.runtime Reset.probes]; rewrite Hl.
  - by rewrite <- !app_assoc, !fmap_app, <- !app_assoc.
  - intros key Hkey. rewrite Hg. by apply Hreg.
Qed.


End ResetProps.

Lemma network_reset_order_witness :
  let out := Reset.reset_state 0%Z Scenario.node_reset Sample.children None
               Scenario.reset_world in
  out.1 = inr tt /\
  Reset.probes out.2
  = [Reset.ResetCalled Sample.a; Reset.ResetCalled Sample.s;
     Reset.ResetCalled Sample.c; Reset.DelayReset "a.V" [0%Z; 0%Z]].
Proof.
  cbn zeta.
  rewrite (network_reset_order 0%Z Scenario.node_reset Sample.children None
             Scenario.reset_world).
  - split; reflexivity.
  - apply (bool_decide_unpack _). vm_compute. exact I.
  - intros n _ rt. eexists. reflexivity.
  - intros key Hkey. vm_compute in Hkey.
    apply list_elem_of_singleton in Hkey as ->. exists 0, (Delay.Variable_ 1).
    reflexivity.
Defined.


(** ** Conductance-based neuron groups over two ticks *)

Section CondNeuGroupTicks.

Context {R Ch : Type}.
Variables (zero milli : R).
Variables (add mul div : R -> R -> R).
Variables (ltb geb : R -> R -> bool).
Variable ch_update : gmap string R -> list R -> Ch -> Ch.
Variable ch_current : Ch -> list R -> list R.
Variable integral : (list R -> R -> list R) -> list R -> R -> R -> list R.

(** What one update leaves in the voltage, the spike flags, the input and
    the threshold. *)
Lemma cond_update_fields (tdi : gmap string R) (t dt : R)
    (g : @CondNeuGroup.group R Ch) :
  tdi !! "t" = Some t ->
  tdi !! "dt" = Some dt ->
  let out := CondNeuGroup.update zero milli add mul div ltb geb ch_update
               ch_current integral tdi g in
  let V_new :=
    integral (CondNeuGroup.derivative milli add mul div ch_current g)
      (CondNeuGroup.V g) t dt in
  out.1 = inr tt /\
  CondNeuGroup.V out.2 = V_new /\
  CondNeuGroup.spike out.2
  = zip_with (fun vn vo => geb vn (CondNeuGroup.V_th g)
                           && ltb vo (CondNeuGroup.V_th g))
      V_new (CondNeuGroup.V g) /\
  CondNeuGroup.input out.2 = replicate (length (CondNeuGroup.input g)) zero /\
  CondNeuGroup.V_th out.2 = CondNeuGroup.V_th g /\
  CondNeuGroup.C out.2 = CondNeuGroup.C g /\
  CondNeuGroup.A out.2 = CondNeuGroup.A g /\
  CondNeuGroup.children out.2
  = (fun kv => (kv.1, CondNeuGroup.call_update ch_update tdi
                        (CondNeuGroup.V g) kv.2))
    <$> CondNeuGroup.children g.
Proof.
  intros Ht Hdt. cbn zeta.
  unfold CondNeuGroup.update, bind, CondNeuGroup.shared_get, gets.
  rewrite Ht, Hdt. cbn [ret]. unfold CondNeuGroup.channels.
  pose proof (update_channels_run ch_update tdi (CondNeuGroup.children g) [] g)
    as Hloop.
  cbn [length app] in Hloop.
  replace (CondNeuGroup.set_children (CondNeuGroup.children g) g) with g
    in Hloop by (by destruct g).
  rewrite Hloop. by split_and!.
Qed.

(** X19. No element spikes on two ticks in a row, whatever input arrives
    between the ticks: the second update starts from any state of the group
    that holds the voltage and the threshold the first update left; when an
    element is flagged after the second update, it was not flagged after
    the first. The comparisons are those of one order: a value at or above
    the threshold is not below it. *)
Theorem no_spike_twice_in_a_row (tdi1 tdi2 : gmap string R) (t1 dt1 t2 dt2 : R)
    (g between : @CondNeuGroup.group R Ch) (i : nat) :
  (forall x y, geb x y = true -> ltb x y = false) ->
  tdi1 !! "t" = Some t1 -> tdi1 !! "dt" = Some dt1 ->
  tdi2 !! "t" = Some t2 -> tdi2 !! "dt" = Some dt2 ->
  let g1 := (CondNeuGroup.update zero milli add mul div ltb geb ch_update
               ch_current integral tdi1 g).2 in
  CondNeuGroup.V between = CondNeuGroup.V g1 ->
  CondNeuGroup.V_th between = CondNeuGroup.V_th g1 ->
  let g2 := (CondNeuGroup.update zero milli add mul div ltb geb ch_update
               ch_current integral tdi2 between).2 in
  CondNeuGroup.spike g2 !! i = Some true ->
  CondNeuGroup.spike g1 !! i ≠ Some true.
Proof.
  intros Horder H1t H1dt H2t H2dt. cbn zeta.
  destruct (cond_update_fields tdi1 t1 dt1 g H1t H1dt)
    as (_ & HV1 & Hs1 & _ & Hth1 & _).
  destruct (cond_update_fields tdi2 t2 dt2 between H2t H2dt)
    as (_ & _ & Hs2 & _).
  cbn zeta in *. intros HV Hth. rewrite Hs2, Hs1, Hth, HV, Hth1, HV1.
  intros Hsecond Hfirst.
  apply lookup_zip_with_Some in Hsecond as (vn2 & vo2 & Hb2 & _ & Hvo2).
  apply lookup_zip_with_Some in Hfirst as (vn1 & vo1 & Hb1 & Hvn1 & _).
  rewrite Hvo2 in Hvn1. simplify_eq.
  symmetry in Hb1, Hb2.
  apply andb_true_iff in Hb1 as [Hge _], Hb2 as [_ Hlt].
  rewrite (Horder _ _ Hge) in Hlt. done.
Qed.

End CondNeuGroupTicks.

Lemma no_spike_twice_in_a_row_witness :
  CondNeuGroup.spike
    (CondNeuGroup.update 0%Z 1%Z Z.add Z.mul Z.div Z.ltb Z.geb
       Sample.ch_update Sample.ch_current Sample.euler Sample.tdi
       Scenario.rising_group).2 !! 0
  ≠ Some true.
Proof.
  apply (no_spike_twice_in_a_row 0%Z 1%Z Z.add Z.mul Z.div Z.ltb Z.geb
           Sample.ch_update Sample.ch_current Sample.euler
           Sample.tdi Sample.tdi 0%Z 1%Z 0%Z 1%Z Scenario.rising_group
           (CondNeuGroup.update 0%Z 1%Z Z.add Z.mul Z.div Z.ltb Z.geb
              Sample.ch_update Sample.ch_current Sample.euler Sample.tdi
              Scenario.rising_group).2 0).
  - intros x y Hge. apply Z.geb_ge in Hge. apply Z.ltb_ge. lia.
  - reflexivity.
  - reflexivity.
  - reflexivity.
  - reflexivity.
  - reflexivity.
  - reflexivity.
  - vm_compute. reflexivity.
Defined.

(** ** The master of a channel *)

Lemma each_ok {A} (body : A -> exn + unit) (xs : list A) :
  Master.each body xs = inr tt <-> Forall (fun x => body x = inr tt) xs.
Proof.
  induction xs as [|x xs IH]; cbn.
  - split; [constructor | done].
  - destruct (body x) as [e|[]] eqn:Hx.
    + split; [done | intros H; apply Forall_cons in H as [H _]; congruence].
    + rewrite IH. split; [by constructor | by intros [_ ?]%Forall_cons].
Qed.

Lemma check_ok {Cls : Type} (issubclass : Cls -> Cls -> bool) (master : Cls)
    (child : @Master.obj Cls) :
  Master._check issubclass master child = inr tt
  <-> Master.compatible issubclass master child.
Proof.
  unfold Master._check, Master.compatible.
  destruct (Master.master_type_of child) as [mt|].
  - destruct (issubclass master mt) eqn:Hsub.
    + split; [by exists mt | done].
    + split; [done | intros (mt' & [= <-] & ?); congruence].
  - split; [done | by intros (mt & ? & _)].
Qed.

(** X20. [check_master] returns exactly when every positional argument is
    a channel compatible with the master, or a list, tuple or dictionary
    all of whose members are compatible (a member need not be a channel),
    and every named argument is a channel compatible with the master;
    compatible meaning that the object declares a master type of which the
    master is a subclass. *)
Theorem check_master_accepts_iff {Cls : Type}
    (issubclass : Cls -> Cls -> bool) (master : Cls)
    (channels : list (@Master.obj Cls))
    (named_channels : list (string * @Master.obj Cls)) :
  Master.check_master issubclass master channels named_channels = inr tt
  <->
  Forall (fun channel =>
            match channel with
            | Master.Instance true _ =>
                Master.compatible issubclass master channel
            | Master.Instance false _ => False
            | Master.Seq members =>
                Forall (Master.compatible issubclass master) members
            | Master.Dict items =>
                Forall (Master.compatible issubclass master) items.*2
            end) channels /\
  Forall (fun kv => Master.is_channel kv.2 /\
                    Master.compatible issubclass master kv.2)
    named_channels.
Proof.
  unfold Master.check_master.
  destruct (Master.each _ channels) as [e|[]] eqn:Hpos.
  - split; [done|]. intros [Hall _]. exfalso.
    assert (Master.each
              (fun channel =>
                 match channel with
                 | Master.Instance true _ =>
                     Master._check issubclass master channel
                 | Master.Instance false _ =>
                     inl (ValueError "Do not support the type.")
                 | Master.Seq members =>
                     Master.each (Master._check issubclass master) members
                 | Master.Dict items =>
                     Master.each (Master._check issubclass master) items.*2
                 end) channels = inr tt) as Hok; [|congruence].
    apply each_ok. eapply Forall_impl; [exact Hall|].
    intros [[] mt|members|items] Hx; cbn in *.
    + by apply check_ok.
    + done.
    + apply each_ok. eapply Forall_impl; [exact Hx|]. intros c. apply check_ok.
    + apply each_ok. eapply Forall_impl; [exact Hx|]. intros c. apply check_ok.
  - apply each_ok in Hpos. rewrite each_ok, Forall_fmap. split.
    + intros Hnamed. split.
      * eapply Forall_impl; [exact Hpos|].
        intros [[] mt|members|items] Hx; cbn in *.
        -- by apply check_ok.
        -- done.
        -- apply each_ok in Hx. eapply Forall_impl; [exact Hx|].
           intros c. apply check_ok.
        -- apply each_ok in Hx. eapply Forall_impl; [exact Hx|].
           intros c. apply check_ok.
      * eapply Forall_impl; [exact Hnamed|].
        intros [k [[] mt|members|items]] Hx; cbn in *; try done.
        split; [done | by apply check_ok].
    + intros [_ Hnamed]. eapply Forall_impl; [exact Hnamed|].
      intros [k [[] mt|members|items]] [Hch Hx]; cbn in *; try done.
      by apply check_ok.
Qed.
